(** * sd_to_c_sort: metadata resolution, planning and execution engine

    A shallow embedding of the core of [sd_to_c_sort.py] (the functions
    [sanitize], [exif_from_*], [extract_meta], [unique_dest], [file_hash],
    [_target_dir_for], the plan construction of [scan_preview] and the
    per-file [process] closure of [_worker_sort]) together with the
    properties that the design document states about them. *)

From Stdlib Require Import NArith ZArith Ascii String List Sorted Lia.
From stdpp Require Import base option list gmap fin_maps fin_sets strings pretty.

Local Open Scope N_scope.

(** ** Python strings

    A Python [str] is a sequence of Unicode code points.  A code point is
    modelled as an [N], a string as a list of code points. *)

Abbreviation codepoint := N.
Abbreviation pystr := (list N).

(** Embedding of an ASCII literal. *)
Definition py (s : string) : pystr :=
  (λ a : ascii, N_of_ascii a) <$> list_ascii_of_string s.

Definition SPACE : codepoint := 32.
Definition SLASH : codepoint := 47.
Definition BACKSLASH : codepoint := 92.
Definition DOT : codepoint := 46.

(** [str.isspace] for one code point: the characters that [str.strip()] and
    [str.split()] treat as whitespace (U+0009..U+000D, U+001C..U+0020,
    U+0085, U+00A0, U+1680, U+2000..U+200A, U+2028, U+2029, U+202F,
    U+205F, U+3000). *)
Definition isspace (c : codepoint) : bool :=
  ((9 <=? c) && (c <=? 13)) || ((28 <=? c) && (c <=? 32))
  || (c =? 133) || (c =? 160) || (c =? 5760)
  || ((8192 <=? c) && (c <=? 8202))
  || (c =? 8232) || (c =? 8233) || (c =? 8239) || (c =? 8287) || (c =? 12288).

(** Control characters: the C0 block, DEL and the C1 block. *)
Definition is_control (c : codepoint) : bool :=
  (c <? 32) || ((127 <=? c) && (c <? 160)).

(** [str.isalnum] restricted to ASCII: digits and letters. *)
Definition ascii_isalnum (c : codepoint) : bool :=
  ((48 <=? c) && (c <=? 57)) || ((65 <=? c) && (c <=? 90))
  || ((97 <=? c) && (c <=? 122)).

(** [str.isalnum] on arbitrary code points is decided by the Unicode
    character database, which is not part of the program.  The database is
    an interface: any table that agrees with Python on ASCII and never
    classifies a whitespace or control character as alphanumeric. *)
Class CharTable := {
  isalnum : codepoint → bool;
  isalnum_ascii : ∀ c, c < 128 → isalnum c = ascii_isalnum c;
  isalnum_not_space : ∀ c, isalnum c = true → isspace c = false;
  isalnum_not_control : ∀ c, isalnum c = true → is_control c = false
}.

(** *** String operations used by [sanitize] *)

(** [s.lstrip()] *)
Fixpoint lstrip (s : pystr) : pystr :=
  match s with
  | [] => []
  | c :: s' => if isspace c then lstrip s' else s
  end.

(** [s.rstrip()] *)
Fixpoint rstrip (s : pystr) : pystr :=
  match s with
  | [] => []
  | c :: s' =>
      match rstrip s' with
      | [] => if isspace c then [] else [c]
      | r => c :: r
      end
  end.

(** [s.strip()] *)
Definition strip (s : pystr) : pystr := rstrip (lstrip s).

Definition starts_word (s : pystr) : bool :=
  match s with
  | [] => false
  | c :: _ => negb (isspace c)
  end.

(** [s.split()]: the maximal runs of non-whitespace characters. *)
Fixpoint split (s : pystr) : list pystr :=
  match s with
  | [] => []
  | c :: s' =>
      if isspace c then split s'
      else if starts_word s' then
        match split s' with
        | w :: ws => (c :: w) :: ws
        | [] => [[c]]
        end
      else [c] :: split s'
  end.

(** [sep.join(l)] *)
Fixpoint join (sep : pystr) (l : list pystr) : pystr :=
  match l with
  | [] => []
  | [w] => w
  | w :: ws => w ++ sep ++ join sep ws
  end.

(** ** PathSanitizer *)

Definition UNKNOWN : pystr := Eval cbv in py "Unknown".

(** The punctuation accepted by [sanitize]: [" ._-()+[]#/"]. *)
Definition SAFE_PUNCT : pystr := Eval cbv in py " ._-()+[]#/".

Definition in_str (c : codepoint) (s : pystr) : bool := existsb (N.eqb c) s.

Section Sanitize.
Context `{CharTable}.

(** [ch.isalnum() or ch in " ._-()+[]#/"] *)
Definition safe_char (ch : codepoint) : bool :=
  isalnum ch || in_str ch SAFE_PUNCT.

Definition sanitize (name : pystr) : pystr :=
  match name with
  | [] => UNKNOWN
  | _ =>
      let safe_chars :=
        (λ ch, if safe_char ch then ch else SPACE) <$> strip name in
      let s := join [SPACE] (split safe_chars) in
      let trimmed := if (120 <? length s)%nat then take 120 s else s in
      match trimmed with
      | [] => UNKNOWN
      | _ => trimmed
      end
  end.

(** The string [sanitize] truncates: safe characters, words joined by
    single spaces. *)
Definition collapsed (name : pystr) : pystr :=
  join [SPACE] (split ((λ ch, if safe_char ch then ch else SPACE) <$> strip name)).

(** Truncation to 120 characters and the placeholder for an empty
    result. *)
Definition truncated (s : pystr) : pystr :=
  let trimmed := if (120 <? length s)%nat then take 120 s else s in
  match trimmed with
  | [] => UNKNOWN
  | _ => trimmed
  end.

(** A word: non-empty, no whitespace, safe characters only. *)
Definition clean_word (w : pystr) : Prop :=
  w ≠ [] ∧ Forall (λ c, isspace c = false ∧ safe_char c = true) w.

End Sanitize.

Definition is_ascii (s : pystr) : bool := forallb (λ c, c <? 128) s.

(** ** Further string helpers *)

Definition pystr_eqb (a b : pystr) : bool := bool_decide (a = b).
Infix "==" := pystr_eqb (at level 70, no associativity).

(** [model or None] *)
Definition or_none (s : pystr) : option pystr :=
  match s with
  | [] => None
  | _ => Some s
  end.

(** Truth value of an optional string: [None] and [""] are false. *)
Definition truthy (o : option pystr) : bool :=
  match o with
  | Some (_ :: _) => true
  | _ => false
  end.

(** [needle in hay] on strings. *)
Fixpoint is_prefix (a s : pystr) : bool :=
  match a, s with
  | [], _ => true
  | x :: a', y :: s' => (x =? y) && is_prefix a' s'
  | _ :: _, [] => false
  end.

Fixpoint contains (needle hay : pystr) : bool :=
  is_prefix needle hay ||
  match hay with
  | [] => false
  | _ :: hay' => contains needle hay'
  end.

(** [str(i)] for a non-negative integer. *)
Definition str_nat (i : nat) : pystr := py (pretty i).
Definition str_N (n : N) : pystr := py (pretty n).

(** ASCII part of [str.lower]. *)
Definition lower_char (c : codepoint) : codepoint :=
  if (65 <=? c) && (c <=? 90) then c + 32 else c.
Definition lower (s : pystr) : pystr := lower_char <$> s.

(** Split at the last occurrence of [c]: [s = before ++ c :: after]. *)
Fixpoint rsplit_at (c : codepoint) (s : pystr) : option (pystr * pystr) :=
  match s with
  | [] => None
  | x :: s' =>
      match rsplit_at c s' with
      | Some (b, a) => Some (x :: b, a)
      | None => if x =? c then Some ([], s') else None
      end
  end.

(** ** Paths

    A [pathlib.Path] is modelled by its textual form with ['/'] as the
    separator; [p / s] appends a separator and the operand.  This is
    [pathlib]'s join for the operands the code passes: non-empty relative
    names (a file name, a date, a sanitized label).  What [pathlib] does
    with other operands is not modelled: an absolute operand replaces the
    left side, empty and ['.'] components are dropped, repeated and
    trailing separators are removed. *)

Definition pjoin (p s : pystr) : pystr := p ++ SLASH :: s.
Infix "</>" := pjoin (at level 40, left associativity).

(** [p.name]: the part after the last separator. *)
Definition path_name (p : pystr) : pystr :=
  match rsplit_at SLASH p with
  | Some (_, a) => a
  | None => p
  end.

(** [os.path.splitext]: split at the last dot of the last component,
    unless that component consists of dots up to there. *)
Definition splitext (p : pystr) : pystr * pystr :=
  match rsplit_at DOT p with
  | Some (b, a) =>
      if in_str SLASH a then (p, [])
      else if forallb (N.eqb DOT) (path_name b) then (p, [])
      else (b, DOT :: a)
  | None => (p, [])
  end.

(** [p.suffix] *)
Definition path_suffix (p : pystr) : pystr :=
  let name := path_name p in
  match rsplit_at DOT name with
  | Some (_ :: _, (_ :: _) as a) => DOT :: a
  | _ => []
  end.

(** The directories [mkdir(parents=True)] visits for [p]: every prefix of
    [p] that stops in front of a separator, then [p]. *)
Fixpoint dir_prefixes (p : pystr) : list pystr :=
  match p with
  | [] => []
  | c :: p' =>
      let rest := (cons c) <$> dir_prefixes p' in
      match p' with
      | [] => [[c]]
      | c' :: _ => if c' =? SLASH then [c] :: rest else rest
      end
  end.

(** ** Extension tables *)

Definition PROC_EXT : list pystr :=
  Eval cbv in py <$> [".jpg"; ".jpeg"; ".heic"; ".heif"; ".png"]%string.
Definition RAW_EXT : list pystr :=
  Eval cbv in py <$> [".arw"; ".cr2"; ".cr3"; ".nef"; ".orf"; ".rw2"; ".raf";
                      ".dng"; ".srw"; ".pef"; ".tif"; ".tiff"]%string.

Definition in_set (x : pystr) (l : list pystr) : bool := bool_decide (x ∈ l).

(** ** MetadataResolver *)

Record datetime := {
  dt_year : N; dt_month : N; dt_day : N;
  dt_hour : N; dt_minute : N; dt_second : N
}.

Definition pad (width : nat) (s : pystr) : pystr :=
  replicate (width - length s) 48 ++ s.

(** [f"{dto:%Y}"], [f"{dto:%Y-%m}"], [f"{dto:%Y-%m-%d}"] *)
Definition fmt_Y (d : datetime) : pystr := pad 4 (str_N (dt_year d)).
Definition fmt_Ym (d : datetime) : pystr :=
  fmt_Y d ++ py "-" ++ pad 2 (str_N (dt_month d)).
Definition fmt_Ymd (d : datetime) : pystr :=
  fmt_Ym d ++ py "-" ++ pad 2 (str_N (dt_day d)).

(** A value of the JSON object printed by exiftool: a string or a number.
    A number is given by its truth value (it is not zero) and by its
    [str()] rendering. *)
Inductive json :=
  | J_str (s : pystr)
  | J_num (nonzero : bool) (text : pystr).

(** Truth value of a JSON value. *)
Definition json_truthy (v : json) : bool :=
  match v with
  | J_str [] => false
  | J_str (_ :: _) => true
  | J_num nonzero _ => nonzero
  end.

(** Truth value of an optional JSON value: [None] is false. *)
Definition json_true (o : option json) : bool :=
  match o with
  | Some v => json_truthy v
  | None => false
  end.

(** [str(v)] *)
Definition json_str (v : json) : pystr :=
  match v with
  | J_str s => s
  | J_num _ text => text
  end.

(** [data.get(key) or dflt] *)
Definition get_or (o : option json) (dflt : json) : json :=
  match o with
  | Some v => if json_truthy v then v else dflt
  | None => dflt
  end.

(** [v or None] *)
Definition json_or_none (v : json) : option json :=
  if json_truthy v then Some v else None.

(** [make not in model]: a substring test on two strings; [None] stands
    for the [TypeError] raised when either operand is a number. *)
Definition not_in (make model : json) : option bool :=
  match make, model with
  | J_str a, J_str b => Some (negb (contains a b))
  | _, _ => None
  end.

(** What the three metadata readers see of the outside world.  A reader
    call that raises is [None].  Pillow and exifread values are given by
    their [str()] rendering, which is what the readers use; the values of
    exiftool's JSON object are used as they are. *)
Record MetaSource := {
  PIL_OK : bool;
  EXIFREAD_OK : bool;
  (** [Image.open(path).getexif()], keyed by numeric tag *)
  pil_getexif : pystr → option (gmap N pystr);
  (** [exifread.process_file(f, ...)], keyed by tag name *)
  exifread_process_file : pystr → option (gmap pystr pystr);
  (** [shutil.which("exiftool")] *)
  which_exiftool : option pystr;
  (** the decoded first JSON object printed by exiftool *)
  exiftool_json : pystr → pystr → option (gmap pystr json);
  (** [datetime.strptime(s, fmt)] *)
  strptime : pystr → pystr → option datetime;
  (** [datetime.fromtimestamp(path.stat().st_mtime)] *)
  stat_mtime : pystr → option datetime;
  (** [datetime.now()] *)
  now : datetime
}.

Definition DT_FORMATS : list pystr :=
  Eval cbv in py <$> ["%Y:%m:%d %H:%M:%S"; "%Y-%m-%d %H:%M:%S";
                      "%Y:%m:%d %H:%M:%S%z"; "%Y-%m-%d %H:%M:%S%z"]%string.

Definition exif_result : Type := option datetime * option pystr * option pystr.
Definition NO_EXIF : exif_result := (None, None, None).

(** The result of the exiftool reader: camera and lens are JSON values. *)
Definition exiftool_result : Type := option datetime * option json * option json.
Definition NO_EXIFTOOL : exiftool_result := (None, None, None).

Section Resolver.
Context `{CharTable}.
Variable E : MetaSource.

(** The first format that parses wins. *)
Fixpoint parse_dt_formats (s : pystr) (fmts : list pystr) : option datetime :=
  match fmts with
  | [] => None
  | fmt :: rest =>
      match strptime E s fmt with
      | Some dt => Some dt
      | None => parse_dt_formats s rest
      end
  end.

Definition parse_dt_str (s : pystr) : option datetime :=
  parse_dt_formats (strip s) DT_FORMATS.

(** The loop [for key in keys: if key in tags: dto = parse(...); if dto:
    break], started with [dto]. *)
Fixpoint find_date {K} `{Countable K} (tags : gmap K pystr) (keys : list K)
    (dto : option datetime) : option datetime :=
  match keys with
  | [] => dto
  | key :: rest =>
      match tags !! key with
      | Some v =>
          match parse_dt_str v with
          | Some d => Some d
          | None => find_date tags rest None
          end
      | None => find_date tags rest dto
      end
  end.

(** The loop [for key in keys: if key in tags: x = str(tags[key]).strip();
    break]. *)
Fixpoint first_tag (tags : gmap pystr pystr) (keys : list pystr) : option pystr :=
  match keys with
  | [] => None
  | key :: rest =>
      match tags !! key with
      | Some v => Some (strip v)
      | None => first_tag tags rest
      end
  end.

Definition exif_from_pillow (path : pystr) : exif_result :=
  if negb (PIL_OK E) then NO_EXIF
  else
    match pil_getexif E path with
    | None => NO_EXIF
    | Some exif =>
        if bool_decide (exif = ∅) then NO_EXIF
        else
          let dto := find_date exif [36867; 306] None in
          let model := default [] (exif !! 272) in
          let lens := default [] (exif !! 42036) in
          (dto, or_none model, or_none lens)
    end.

Definition exif_from_exifread (path : pystr) : exif_result :=
  if negb (EXIFREAD_OK E) then NO_EXIF
  else
    match exifread_process_file E path with
    | None => NO_EXIF
    | Some tags =>
        let dto :=
          find_date tags [py "EXIF DateTimeOriginal"; py "Image DateTime"] None in
        let model := first_tag tags [py "Image Model"; py "EXIF Model"] in
        let lens :=
          first_tag tags [py "EXIF LensModel"; py "EXIF LensSpecification";
                          py "EXIF LensMake"; py "MakerNote LensType"] in
        (dto, or_none (default [] model), or_none (default [] lens))
    end.

Definition exif_from_exiftool (path : pystr) : exiftool_result :=
  match which_exiftool E with
  | None => NO_EXIFTOOL
  | Some exe =>
      match exiftool_json E exe path with
      | None => NO_EXIFTOOL
      | Some data =>
          let dto :=
            match data !! py "DateTimeOriginal" with
            | Some v => parse_dt_str (json_str v)
            | None => None
            end in
          let model := get_or (data !! py "Model") (J_str []) in
          let make := get_or (data !! py "Make") (J_str []) in
          (* if make and model and make not in model *)
          match (if json_truthy make && json_truthy model
                 then not_in make model else Some false) with
          | None => NO_EXIFTOOL
          | Some prefix_make =>
              let model :=
                if prefix_make
                then J_str (json_str make ++ SPACE :: json_str model)
                else model in
              let lens :=
                get_or (data !! py "LensModel")
                       (get_or (data !! py "Lens") (J_str [])) in
              (dto, json_or_none model, json_or_none lens)
          end
      end
  end.

Record meta := {
  m_path : pystr;
  m_dt : datetime;
  m_year : pystr;
  m_month : pystr;
  m_date : pystr;
  m_camera : pystr;
  m_lens : pystr;
  m_kind : pystr
}.

(** [if not x and y: x = y] *)
Definition fill {A} (x y : option A) (y_true : bool) : option A :=
  match x with
  | Some _ => x
  | None => if y_true then y else None
  end.

(** [if not x and y: x = y] for a camera or lens value *)
Definition fill_value (x y : option json) : option json :=
  if negb (json_true x) && json_true y then y else x.

(** [sanitize(v)] for a value that need not be a string: a number that
    is not zero has no [strip] method, and the call raises
    [AttributeError] ([None]). *)
Definition sanitize_value (v : json) : option pystr :=
  match v with
  | J_str s => Some (sanitize s)
  | J_num false _ => Some UNKNOWN
  | J_num true _ => None
  end.

(** [extract_meta]; [None] when it raises. *)
Definition extract_meta (path : pystr) : option meta :=
  let '(d1, c1, l1) := exif_from_pillow path in
  let dto := if bool_decide (is_Some d1) then d1 else None in
  let cam := if truthy c1 then J_str <$> c1 else None in
  let lens := if truthy l1 then J_str <$> l1 else None in
  let '(d2, c2, l2) := exif_from_exifread path in
  let dto := fill dto d2 (bool_decide (is_Some d2)) in
  let cam := fill_value cam (J_str <$> c2) in
  let lens := fill_value lens (J_str <$> l2) in
  let '(d3, c3, l3) := exif_from_exiftool path in
  let dto := fill dto d3 (bool_decide (is_Some d3)) in
  let cam := fill_value cam c3 in
  let lens := fill_value lens l3 in
  let dto :=
    match dto with
    | Some d => d
    | None =>
        match stat_mtime E path with
        | Some d => d
        | None => now E
        end
    end in
  match sanitize_value
          (if json_true cam then default (J_str []) cam
           else J_str (py "Unknown Camera")) with
  | None => None
  | Some cam =>
      match sanitize_value
              (if json_true lens then default (J_str []) lens
               else J_str (py "Unknown Lens")) with
      | None => None
      | Some lens =>
          let ext := lower (path_suffix path) in
          let kind :=
            if in_set ext RAW_EXT then py "raw"
            else if in_set ext PROC_EXT then py "jpg"
            else py "other" in
          Some {| m_path := path; m_dt := dto;
                  m_year := fmt_Y dto; m_month := fmt_Ym dto;
                  m_date := fmt_Ymd dto;
                  m_camera := cam; m_lens := lens; m_kind := kind |}
      end
  end.
End Resolver.

(** ** Filesystem

    The filesystem maps a path to a regular file (its bytes and whether
    this process may read it) or to a directory. *)

Inductive node :=
  | File (data : list N) (readable : bool)
  | Dir.

Abbreviation filesystem := (gmap pystr node).

(** [p.exists()] *)
Definition path_exists (fs : filesystem) (p : pystr) : bool :=
  bool_decide (is_Some (fs !! p)).

Definition is_dir (fs : filesystem) (p : pystr) : bool :=
  match fs !! p with
  | Some Dir => true
  | _ => false
  end.

(** Creates the listed directories in turn; stops with [false] at a path
    that is a regular file. *)
Fixpoint mkdirs (fs : filesystem) (ds : list pystr) : filesystem * bool :=
  match ds with
  | [] => (fs, true)
  | d :: rest =>
      match fs !! d with
      | Some Dir => mkdirs fs rest
      | Some (File _ _) => (fs, false)
      | None => mkdirs (<[d := Dir]> fs) rest
      end
  end.

(** [d.mkdir(parents=True, exist_ok=True)]; [false] when it raises. *)
Definition mkdir_p (fs : filesystem) (d : pystr) : filesystem * bool :=
  match fs !! d with
  | Some Dir => (fs, true)
  | Some (File _ _) => (fs, false)
  | None => mkdirs fs (dir_prefixes d)
  end.

(** [shutil.copy2(src, dst)]: the new filesystem and the path written, or
    [None] when it raises (source missing, unreadable or a directory; source
    and destination the same file; destination a directory after
    resolution).  An existing destination file is overwritten; a destination
    that is a directory receives the file under the source's name. *)
Definition copy2 (fs : filesystem) (src dst : pystr) : option (filesystem * pystr) :=
  match fs !! src with
  | Some (File data true) =>
      let real_dst := if is_dir fs dst then dst </> path_name src else dst in
      if real_dst == src then None
      else if is_dir fs real_dst then None
      else Some (<[real_dst := File data true]> fs, real_dst)
  | _ => None
  end.

(** [shutil.move(src, dst)] for a source that is a regular file on the
    destination's filesystem: a rename, which does not need to read the
    file.  Inside an existing directory the move refuses to replace an
    entry.  The sources of a run are the file names [os.walk] lists, so
    they are not directories when scanned; the move of a directory, and the
    copy-and-delete fallback across filesystems, are outside the model
    ([None] for a source that is not a regular file). *)
Definition move (fs : filesystem) (src dst : pystr) : option (filesystem * pystr) :=
  match fs !! src with
  | Some (File data r) =>
      if is_dir fs dst then
        let real_dst := dst </> path_name src in
        if path_exists fs real_dst then None
        else Some (<[real_dst := File data r]> (delete src fs), real_dst)
      else Some (<[dst := File data r]> (delete src fs), dst)
  | _ => None
  end.

(** ** Configuration, events and run state *)

Record config := {
  dest_root : pystr;
  group_by : pystr;       (* "camera" | "lens" *)
  hierarchy : pystr;      (* "device-first" | "date-first" *)
  split_raw_jpg : bool;
  action : pystr;         (* "copy" | "move" *)
  skip_hash_dup : bool;
  policy : pystr;         (* "rename" | "skip" | "ask" *)
  max_workers : Z
}.

(** Keys of the translated messages that prefix a status line. *)
Inductive msg :=
  | skip_same_content
  | skip_duplicate_name
  | skip_user
  | processed_file
  | failure_prefix.

(** A ["status"] item of the UI queue: [done], [total] and the line. *)
Record status := {
  ev_done : nat;
  ev_total : nat;
  ev_msg : msg;
  ev_name : pystr
}.

(** Answer of the conflict dialog. *)
Inductive answer := ans_rename | ans_skip | ans_cancel.

(** The operation that raised inside [process]. *)
Inductive failure := mkdir_failed | transfer_failed.

(** The variables shared by all calls of [process] in one run, and the
    filesystem. *)
Record run_state := {
  fs : filesystem;
  stop_flag : bool;
  done : nat;
  success : nat;
  skipped : nat;
  failed : nat;
  errors : list (pystr * failure);
  skipped_list : list pystr;
  ui_queue : list status
}.

(** How one call of [process] ended.  [no_result] stands for a rename
    loop that is cut off before it finds a free name. *)
Inductive outcome :=
  | not_run
  | placed (dst : pystr)
  | skip (why : msg)
  | fail (e : failure)
  | cancel_all
  | no_result.

(** ** ConflictResolver and ExecutionEngine *)

(** The [i]-th name tried by [unique_dest]. *)
Definition candidate (dest_dir base ext : pystr) (i : nat) : pystr :=
  dest_dir </> (base ++ py "_" ++ str_nat i ++ ext).

(** The loop of [unique_dest]: [while cand.exists(): cand = ...; i += 1],
    cut off after [fuel] tests. *)
Fixpoint unique_dest_loop (fuel : nat) (fs : filesystem)
    (dest_dir base ext cand : pystr) (i : nat) : option pystr :=
  match fuel with
  | O => None
  | S fuel' =>
      if path_exists fs cand then
        unique_dest_loop fuel' fs dest_dir base ext
          (candidate dest_dir base ext i) (S i)
      else Some cand
  end.

Definition unique_dest_fuel (fuel : nat) (fs : filesystem)
    (dest_dir name : pystr) : option pystr :=
  let '(base, ext) := splitext name in
  unique_dest_loop fuel fs dest_dir base ext (dest_dir </> name) 1.

(** [unique_dest]: the loop is given more tests than the filesystem has
    entries, which is always enough (see [unique_dest_returns]). *)
Definition unique_dest (fs : filesystem) (dest_dir name : pystr) : option pystr :=
  unique_dest_fuel (2 + size fs) fs dest_dir name.

(** [done <= 10 or done % max(1, total // 100) == 0 or done == total] *)
Definition should_report (done total : nat) : bool :=
  (done <=? 10)%nat
  || (done mod (Nat.max 1 (total / 100)) =? 0)%nat
  || (done =? total)%nat.

(** Worker count of the execution phase ([_worker_sort]). *)
Definition exec_workers (cfg : config) : Z :=
  let workers := Z.max 1 (max_workers cfg) in
  if (policy cfg == py "ask") && (1 <? workers)%Z then 1%Z else workers.

(** Thread count shown in the scan summary ([scan_preview]). *)
Definition eff_workers (cfg : config) : Z :=
  let eff_workers := Z.max 1 (max_workers cfg) in
  if policy cfg == py "ask" then 1%Z else eff_workers.

(** [_worker_sort] runs the thread pool exactly when this holds. *)
Definition runs_parallel (cfg : config) : bool := (1 <? exec_workers cfg)%Z.

Section Engine.
Context `{CharTable}.
(** [hashlib.sha1(data).hexdigest()] *)
Variable sha1_hexdigest : list N → pystr.
(** The operator's answer in [_ask_conflict(src, dst)]. *)
Variable ask_conflict : pystr → pystr → answer.
Variable cfg : config.

(** [file_hash]: the digest, or [""] when reading raises. *)
Definition file_hash (fs : filesystem) (path : pystr) : pystr :=
  match fs !! path with
  | Some (File data true) => sha1_hexdigest data
  | _ => []
  end.

Definition _target_dir_for (m : meta) : pystr :=
  let group :=
    if group_by cfg == py "camera" then m_camera m else m_lens m in
  let group := sanitize group in
  let base :=
    if hierarchy cfg == py "device-first"
    then dest_root cfg </> group </> m_year m </> m_month m </> m_date m
    else dest_root cfg </> m_year m </> m_month m </> m_date m </> group in
  if split_raw_jpg cfg then base </> m_kind m else base.

(** *** Plan construction in [scan_preview] *)

(** [plan.setdefault(k, []).append(v)] *)
Definition setdefault_append (plan : gmap pystr (list pystr)) (k v : pystr)
    : gmap pystr (list pystr) :=
  <[k := default [] (plan !! k) ++ [v]]> plan.

Definition build_plan (metas : list meta) : gmap pystr (list pystr) :=
  foldl (λ plan m, setdefault_append plan (_target_dir_for m) (m_path m))
        ∅ metas.

(** All files of a plan, bucket after bucket. *)
Definition plan_files (plan : gmap pystr (list pystr)) : list pystr :=
  concat (snd <$> map_to_list plan).

(** *** [process] *)

Definition enqueue_status (st : run_state) (total : nat) (k : msg)
    (name : pystr) : run_state :=
  {| fs := fs st; stop_flag := stop_flag st; done := done st;
     success := success st; skipped := skipped st; failed := failed st;
     errors := errors st; skipped_list := skipped_list st;
     ui_queue := ui_queue st ++
       [{| ev_done := done st; ev_total := total; ev_msg := k; ev_name := name |}] |}.

Definition report_if_due (st : run_state) (total : nat) (k : msg)
    (name : pystr) : run_state :=
  if should_report (done st) total then enqueue_status st total k name else st.

Definition with_fs (st : run_state) (fs' : filesystem) : run_state :=
  {| fs := fs'; stop_flag := stop_flag st; done := done st;
     success := success st; skipped := skipped st; failed := failed st;
     errors := errors st; skipped_list := skipped_list st;
     ui_queue := ui_queue st |}.

(** The three skip branches: count under the lock, then report if due. *)
Definition do_skip (st : run_state) (total : nat) (src : pystr) (why : msg)
    : run_state * outcome :=
  let st' :=
    {| fs := fs st; stop_flag := stop_flag st; done := S (done st);
       success := success st; skipped := S (skipped st); failed := failed st;
       errors := errors st; skipped_list := skipped_list st ++ [src];
       ui_queue := ui_queue st |} in
  (report_if_due st' total why (path_name src), skip why).

(** The [except Exception] handler. *)
Definition do_fail (st : run_state) (total : nat) (src : pystr) (e : failure)
    : run_state * outcome :=
  let st' :=
    {| fs := fs st; stop_flag := stop_flag st; done := S (done st);
       success := success st; skipped := skipped st; failed := S (failed st);
       errors := errors st ++ [(src, e)]; skipped_list := skipped_list st;
       ui_queue := ui_queue st |} in
  (report_if_due st' total failure_prefix (path_name src), fail e).

(** Copy or move, count the success and report it. *)
Definition do_transfer (st : run_state) (total : nat) (src dst : pystr)
    : run_state * outcome :=
  match (if action cfg == py "move" then move else copy2) (fs st) src dst with
  | Some (fs', real_dst) =>
      let st' :=
        {| fs := fs'; stop_flag := stop_flag st; done := S (done st);
           success := S (success st); skipped := skipped st;
           failed := failed st; errors := errors st;
           skipped_list := skipped_list st; ui_queue := ui_queue st |} in
      (enqueue_status st' total processed_file (path_name dst), placed real_dst)
  | None => do_fail st total src transfer_failed
  end.

Definition do_rename (st : run_state) (total : nat) (src out_dir : pystr)
    : run_state * outcome :=
  match unique_dest (fs st) out_dir (path_name src) with
  | Some dst => do_transfer st total src dst
  | None => (st, no_result)
  end.

Definition set_stop (st : run_state) : run_state :=
  {| fs := fs st; stop_flag := true; done := done st;
     success := success st; skipped := skipped st; failed := failed st;
     errors := errors st; skipped_list := skipped_list st;
     ui_queue := ui_queue st |}.

(** The closure [process(m)] of [_worker_sort], run without interference
    from other workers; [total = len(self.metas)]. *)
Definition process (total : nat) (st : run_state) (m : meta)
    : run_state * outcome :=
  if stop_flag st then (st, not_run)
  else
    let src := m_path m in
    let out_dir := _target_dir_for m in
    match mkdir_p (fs st) out_dir with
    | (fs1, false) => do_fail (with_fs st fs1) total src mkdir_failed
    | (fs1, true) =>
        let st := with_fs st fs1 in
        let dst := out_dir </> path_name src in
        if path_exists fs1 dst then
          if skip_hash_dup cfg && (file_hash fs1 src == file_hash fs1 dst)
          then do_skip st total src skip_same_content
          else if policy cfg == py "rename" then do_rename st total src out_dir
          else if policy cfg == py "skip"
          then do_skip st total src skip_duplicate_name
          else
            match ask_conflict src dst with
            | ans_cancel => (set_stop st, cancel_all)
            | ans_skip => do_skip st total src skip_user
            | ans_rename => do_rename st total src out_dir
            end
        else do_transfer st total src dst
    end.

(** The sequential branch of [_worker_sort]:
    [for m in self.metas: if stop: break; process(m)]. *)
Fixpoint run_sequential (total : nat) (st : run_state) (metas : list meta)
    : run_state * list (meta * outcome) :=
  match metas with
  | [] => (st, [])
  | m :: rest =>
      if stop_flag st then (st, [])
      else
        let '(st1, o) := process total st m in
        let '(st2, os) := run_sequential total st1 rest in
        (st2, (m, o) :: os)
  end.

(** *** Workers of the thread pool

    With more than one worker several calls of [process] are in flight.
    A call is split at the points where another worker can run between
    two filesystem operations: before each existence test of the rename
    loop and before the copy or move. *)

Inductive worker :=
  | w_ready (m : meta)
  | w_probe (m : meta) (out_dir base ext cand : pystr) (i : nat)
  | w_transfer (m : meta) (dst : pystr)
  | w_finished (m : meta) (o : outcome).

Definition start_rename (st : run_state) (m : meta) (out_dir : pystr)
    : run_state * worker :=
  let '(base, ext) := splitext (path_name (m_path m)) in
  (st, w_probe m out_dir base ext (out_dir </> path_name (m_path m)) 1).

Definition finish (m : meta) (r : run_state * outcome) : run_state * worker :=
  (r.1, w_finished m r.2).

(** One atomic step of a worker on the shared state. *)
Definition worker_step (total : nat) (st : run_state) (w : worker)
    : run_state * worker :=
  match w with
  | w_ready m =>
      if stop_flag st then (st, w_finished m not_run)
      else
        let src := m_path m in
        let out_dir := _target_dir_for m in
        match mkdir_p (fs st) out_dir with
        | (fs1, false) =>
            finish m (do_fail (with_fs st fs1) total src mkdir_failed)
        | (fs1, true) =>
            let st := with_fs st fs1 in
            let dst := out_dir </> path_name src in
            if path_exists fs1 dst then
              if skip_hash_dup cfg && (file_hash fs1 src == file_hash fs1 dst)
              then finish m (do_skip st total src skip_same_content)
              else if policy cfg == py "rename" then start_rename st m out_dir
              else if policy cfg == py "skip"
              then finish m (do_skip st total src skip_duplicate_name)
              else
                match ask_conflict src dst with
                | ans_cancel => (set_stop st, w_finished m cancel_all)
                | ans_skip => finish m (do_skip st total src skip_user)
                | ans_rename => start_rename st m out_dir
                end
            else (st, w_transfer m dst)
        end
  | w_probe m out_dir base ext cand i =>
      if path_exists (fs st) cand then
        (st, w_probe m out_dir base ext (candidate out_dir base ext i) (S i))
      else (st, w_transfer m cand)
  | w_transfer m dst => finish m (do_transfer st total (m_path m) dst)
  | w_finished m o => (st, w)
  end.

(** A schedule names, step by step, the worker that runs next. *)
Fixpoint run_schedule (total : nat) (st : run_state) (ws : list worker)
    (schedule : list nat) : run_state * list worker :=
  match schedule with
  | [] => (st, ws)
  | k :: rest =>
      match ws !! k with
      | Some w =>
          let '(st', w') := worker_step total st w in
          run_schedule total st' (<[k := w']> ws) rest
      | None => run_schedule total st ws rest
      end
  end.

(** The final destination a worker assigned to its source, if any. *)
Definition worker_dest (w : worker) : option (pystr * pystr) :=
  match w with
  | w_finished m (placed dst) => Some (m_path m, dst)
  | _ => None
  end.
End Engine.

Definition initial_state (fs0 : filesystem) : run_state :=
  {| fs := fs0; stop_flag := false; done := 0; success := 0; skipped := 0;
     failed := 0; errors := []; skipped_list := []; ui_queue := [] |}.

(** ** Scanning

    [walk_images] and the parts of [scan_preview] around the plan. *)

Definition IMAGE_EXT : list pystr :=
  Eval cbv in py <$> [".jpg"; ".jpeg"; ".png"; ".heic"; ".heif"; ".tif"; ".tiff";
                      ".arw"; ".cr2"; ".cr3"; ".nef"; ".orf"; ".rw2"; ".raf";
                      ".dng"; ".srw"; ".pef"]%string.

(** [walk_images(root)], given the paths [Path(dp) / fn] that [os.walk]
    enumerates under [root]: those with an image suffix, in that order. *)
Definition walk_images (listing : list pystr) : list pystr :=
  List.filter (λ p, in_set (lower (path_suffix p)) IMAGE_EXT) listing.

(** The counting loop [counts[k] = counts.get(k, 0) + 1] over the records,
    with [k = key(m)]; used for [cam_counts] and [len_counts]. *)
Definition count_by (key : meta → pystr) (metas : list meta) : gmap pystr nat :=
  foldl (λ counts m, <[key m := (default 0 (counts !! key m) + 1)%nat]> counts)
        ∅ metas.

(** The conflicts of one bucket: [dst = out_dir / src.name] for each file,
    kept when [dst.exists()]. *)
Definition bucket_conflicts (fs : filesystem) (out_dir : pystr)
    (flist : list pystr) : list (pystr * pystr) :=
  omap (λ src, let dst := out_dir </> path_name src in
               if path_exists fs dst then Some (src, dst) else None) flist.

(** The pre-flight scan for duplicates of [scan_preview], bucket after
    bucket (the order in which the buckets are visited is not modelled). *)
Definition scan_conflicts (fs : filesystem) (plan : gmap pystr (list pystr))
    : list (pystr * pystr) :=
  concat ((λ b, bucket_conflicts fs b.1 b.2) <$> map_to_list plan).

(** ** Auxiliary notions used in the statements *)

(** The merge rule in the words of the design: the first value of a field
    in strategy order. *)
Definition first_some {A} (l : list (option A)) : option A :=
  mjoin (snd <$> list_find is_Some l).

(** What a call may do to the filesystem: entries other than the source
    stay, and a destination it reports was free and is now taken. *)
Definition keeps_others (src : pystr) (st st' : run_state) : Prop :=
  ∀ p, p ≠ src → is_Some (fs st !! p) → is_Some (fs st' !! p).

Definition fresh_dest (st st' : run_state) (o : outcome) : Prop :=
  ∀ d, o = placed d → fs st !! d = None ∧ is_Some (fs st' !! d).

(** The destinations assigned in a run, in order. *)
Definition placed_dests (os : list (meta * outcome)) : list pystr :=
  omap (λ mo, match mo.2 with placed d => Some d | _ => None end) os.

(** A worker run by itself until it has finished, for at most [fuel]
    steps. *)
Fixpoint run_alone `{CharTable} (sha1_hexdigest : list N → pystr)
    (ask_conflict : pystr → pystr → answer) (cfg : config)
    (fuel total : nat) (st : run_state) (w : worker)
    : option (run_state * outcome) :=
  match w with
  | w_finished _ o => Some (st, o)
  | _ =>
      match fuel with
      | O => None
      | S fuel' =>
          let '(st', w') := worker_step sha1_hexdigest ask_conflict cfg total st w in
          run_alone sha1_hexdigest ask_conflict cfg fuel' total st' w'
      end
  end.

(** ** Sample inputs *)

(** A source in which Pillow and exiftool both report a camera. *)
Definition two_cameras : MetaSource :=
  {| PIL_OK := true; EXIFREAD_OK := false;
     pil_getexif := λ _, Some {[ 272 := py "Camera A" ]};
     exifread_process_file := λ _, None;
     which_exiftool := Some (py "exiftool");
     exiftool_json := λ _ _, Some {[ py "Model" := J_str (py "Camera B") ]};
     strptime := λ _ _, None;
     stat_mtime := λ _, None;
     now := {| dt_year := 2025; dt_month := 1; dt_day := 1;
               dt_hour := 0; dt_minute := 0; dt_second := 0 |} |}.

(** A source in which nothing is available: no library, no tool, no
    modification time. *)
Definition nothing_readable : MetaSource :=
  {| PIL_OK := false; EXIFREAD_OK := false;
     pil_getexif := λ _, None;
     exifread_process_file := λ _, None;
     which_exiftool := None;
     exiftool_json := λ _ _, None;
     strptime := λ _ _, None;
     stat_mtime := λ _, None;
     now := {| dt_year := 2025; dt_month := 6; dt_day := 30;
               dt_hour := 12; dt_minute := 0; dt_second := 0 |} |}.

Definition eight_workers_ask : config :=
  {| dest_root := py "/dest"; group_by := py "camera";
     hierarchy := py "device-first"; split_raw_jpg := false;
     action := py "copy"; skip_hash_dup := false;
     policy := py "ask"; max_workers := 8 |}.

(** Sample data: one JPEG of "Camera X" taken on 2024-01-01. *)
Definition sample_dt : datetime :=
  {| dt_year := 2024; dt_month := 1; dt_day := 1;
     dt_hour := 9; dt_minute := 30; dt_second := 0 |}.

Definition sample_meta (path : pystr) : meta :=
  {| m_path := path; m_dt := sample_dt;
     m_year := fmt_Y sample_dt; m_month := fmt_Ym sample_dt;
     m_date := fmt_Ymd sample_dt;
     m_camera := py "Camera X"; m_lens := py "Unknown Lens";
     m_kind := py "jpg" |}.

Definition sample_cfg (pol : string) (hash : bool) (workers : Z) : config :=
  {| dest_root := py "/dest"; group_by := py "camera";
     hierarchy := py "device-first"; split_raw_jpg := false;
     action := py "copy"; skip_hash_dup := hash;
     policy := py pol; max_workers := workers |}.

Definition sample_dir : pystr := py "/dest/Camera X/2024/2024-01/2024-01-01".

(** A stand-in for the digest in examples. *)
Definition toy_digest (data : list N) : pystr := 104 :: data.
Definition always_rename (src dst : pystr) : answer := ans_rename.

(** The destination already holds a file with the same bytes. *)
Definition fs_same_content : filesystem :=
  <[py "/sd/IMG_1.jpg" := File [1; 2; 3] true]>
    (<[sample_dir := Dir]>
       (<[sample_dir </> py "IMG_1.jpg" := File [1; 2; 3] true]> ∅)).

(** Source and destination hold different bytes; neither can be read. *)
Definition fs_unreadable : filesystem :=
  <[py "/sd/IMG_1.jpg" := File [1; 2; 3] false]>
    (<[sample_dir := Dir]>
       (<[sample_dir </> py "IMG_1.jpg" := File [9; 9] false]> ∅)).

(** The state after ten files of two hundred have been copied, with the
    eleventh source present and the destination still free. *)
Definition after_ten : run_state :=
  {| fs := <[py "/sd/IMG_11.jpg" := File [1; 2; 3] true]> ∅;
     stop_flag := false; done := 10; success := 10; skipped := 0;
     failed := 0; errors := []; skipped_list := []; ui_queue := [] |}.

(** Three files named [IMG.jpg] from three folders of the card. *)
Definition three_sources : list pystr :=
  [py "/sd/a/IMG.jpg"; py "/sd/b/IMG.jpg"; py "/sd/c/IMG.jpg"].

Definition fs_three : filesystem :=
  <[py "/sd/a/IMG.jpg" := File [1] true]>
    (<[py "/sd/b/IMG.jpg" := File [2] true]>
       (<[py "/sd/c/IMG.jpg" := File [3] true]> ∅)).

(** Two files named [IMG.jpg] on the card and one already at the
    destination. *)
Definition fs_race : filesystem :=
  <[py "/sd/a/IMG.jpg" := File [1] true]>
    (<[py "/sd/b/IMG.jpg" := File [2] true]>
       (<[sample_dir := Dir]>
          (<[sample_dir </> py "IMG.jpg" := File [0] true]> ∅))).

Definition race_workers : list worker :=
  [w_ready (sample_meta (py "/sd/a/IMG.jpg"));
   w_ready (sample_meta (py "/sd/b/IMG.jpg"))].

(** The two workers of the pool take turns after every filesystem
    operation. *)
Definition race_schedule : list nat := [0; 1; 0; 1; 0; 1; 0; 1]%nat.

(** A source whose EXIF block holds both date tags and whose exiftool
    reports make and model. *)
Definition dated_source : MetaSource :=
  {| PIL_OK := true; EXIFREAD_OK := true;
     pil_getexif := λ _, Some (<[36867 := py "2024:01:02 03:04:05"]>
                                {[ 306 := py "2020:05:06 07:08:09" ]});
     exifread_process_file := λ _,
       Some (<[py "Image Model" := py "  "]>
               {[ py "EXIF Model" := py "EOS R5" ]});
     which_exiftool := Some (py "exiftool");
     exiftool_json := λ _ _, Some (<[py "Make" := J_str (py "Canon")]>
                                     {[ py "Model" := J_str (py "EOS R5") ]});
     strptime := λ s fmt,
       if (s == py "2024:01:02 03:04:05") && (fmt == py "%Y:%m:%d %H:%M:%S")
       then Some {| dt_year := 2024; dt_month := 1; dt_day := 2;
                    dt_hour := 3; dt_minute := 4; dt_second := 5 |}
       else if (s == py "2020:05:06 07:08:09") && (fmt == py "%Y:%m:%d %H:%M:%S")
       then Some {| dt_year := 2020; dt_month := 5; dt_day := 6;
                    dt_hour := 7; dt_minute := 8; dt_second := 9 |}
       else None;
     stat_mtime := λ _, None;
     now := {| dt_year := 2025; dt_month := 1; dt_day := 1;
               dt_hour := 0; dt_minute := 0; dt_second := 0 |} |}.

(** Outcomes that count as a completed file. *)
Definition completed (o : outcome) : bool :=
  match o with
  | placed _ | skip _ | fail _ => true
  | _ => false
  end.

Definition is_placed (o : outcome) : bool :=
  match o with placed _ => true | _ => false end.
Definition is_skip (o : outcome) : bool :=
  match o with skip _ => true | _ => false end.
Definition is_fail (o : outcome) : bool :=
  match o with fail _ => true | _ => false end.
Definition is_cancel (o : outcome) : bool :=
  match o with cancel_all => true | _ => false end.

Definition always_cancel (src dst : pystr) : answer := ans_cancel.

(** What a call of [process] with outcome [o] does to the counters, the
    two lists and the stop flag. *)
Definition accounted (st st' : run_state) (o : outcome) : Prop :=
  done st' = (done st + (if completed o then 1 else 0))%nat
  ∧ success st' = (success st + (if is_placed o then 1 else 0))%nat
  ∧ skipped st' = (skipped st + (if is_skip o then 1 else 0))%nat
  ∧ failed st' = (failed st + (if is_fail o then 1 else 0))%nat
  ∧ length (skipped_list st') =
      (length (skipped_list st) + (if is_skip o then 1 else 0))%nat
  ∧ length (errors st') = (length (errors st) + (if is_fail o then 1 else 0))%nat
  ∧ stop_flag st' = stop_flag st || is_cancel o.

(** The message key of the status line for an outcome. *)
Definition msg_of (o : outcome) : msg :=
  match o with
  | skip why => why
  | fail _ => failure_prefix
  | _ => processed_file
  end.

(** What a call of [process] with outcome [o] adds to the UI queue: one
    status event carrying the new count when the file was copied or moved,
    or was skipped or failed and a report is due; nothing otherwise. *)
Definition reported (total : nat) (st st' : run_state) (o : outcome) : Prop :=
  ∃ name,
    ui_queue st' =
      ui_queue st ++
        (if is_placed o || (completed o && should_report (done st') total)
         then [{| ev_done := done st'; ev_total := total;
                  ev_msg := msg_of o; ev_name := name |}]
         else []).

(** The book-keeping invariant of a run. *)
Definition counters_consistent (st : run_state) : Prop :=
  done st = (success st + skipped st + failed st)%nat
  ∧ length (skipped_list st) = skipped st
  ∧ length (errors st) = failed st.

(** The status events of a run are in order, in range and complete from
    count [lo] on: every completion for which a report is due has its
    event. *)
Definition events_ok (total lo : nat) (st : run_state) : Prop :=
  StronglySorted lt (ev_done <$> ui_queue st)
  ∧ Forall (λ e, (1 ≤ ev_done e ≤ done st)%nat ∧ ev_total e = total) (ui_queue st)
  ∧ ∀ k, (lo < k ≤ done st)%nat → should_report k total = true →
         k ∈ ev_done <$> ui_queue st.

(** The destination holds a file with other bytes than the source. *)
Definition fs_other_content : filesystem :=
  <[py "/sd/IMG_1.jpg" := File [1; 2; 3] true]>
    (<[sample_dir := Dir]>
       (<[sample_dir </> py "IMG_1.jpg" := File [7] true]> ∅)).

(** Pillow reports a camera with a colon, exiftool another camera. *)
Definition colon_source : MetaSource :=
  {| PIL_OK := true; EXIFREAD_OK := false;
     pil_getexif := λ _, Some {[ 272 := py "Canon: EOS" ]};
     exifread_process_file := λ _, None;
     which_exiftool := Some (py "exiftool");
     exiftool_json := λ _ _, Some {[ py "Model" := J_str (py "Other Cam") ]};
     strptime := λ _ _, None;
     stat_mtime := λ _, None;
     now := {| dt_year := 2025; dt_month := 1; dt_day := 1;
               dt_hour := 0; dt_minute := 0; dt_second := 0 |} |}.

(** Neither Pillow nor exifread is installed, and exiftool prints the
    model as the number 6300, without a make. *)
Definition numeric_model_source : MetaSource :=
  {| PIL_OK := false; EXIFREAD_OK := false;
     pil_getexif := λ _, None;
     exifread_process_file := λ _, None;
     which_exiftool := Some (py "exiftool");
     exiftool_json := λ _ _, Some {[ py "Model" := J_num true (py "6300") ]};
     strptime := λ _ _, None;
     stat_mtime := λ _, None;
     now := {| dt_year := 2025; dt_month := 1; dt_day := 1;
               dt_hour := 0; dt_minute := 0; dt_second := 0 |} |}.

(** The merge rule for camera and lens: the first value in strategy order
    that counts as true. *)
Definition first_truthy (l : list (option json)) : option json :=
  mjoin (snd <$> list_find (λ o, json_true o = true) l).

(** * Properties *)

(** The table that knows ASCII only. *)
Definition ascii_only_isalnum (c : codepoint) : bool :=
  (c <? 128) && ascii_isalnum c.

Ltac bool_to_arith :=
  repeat match goal with
    | H : (_ || _) = true |- _ => apply orb_prop in H; destruct H
    | H : (_ && _) = true |- _ => apply andb_prop in H; destruct H
    | H : (_ <=? _) = true |- _ => apply N.leb_le in H
    | H : (_ <? _) = true |- _ => apply N.ltb_lt in H
    | H : (_ =? _) = true |- _ => apply N.eqb_eq in H
    end.

Lemma ascii_only_ascii c : c < 128 → ascii_only_isalnum c = ascii_isalnum c.
Proof. intros Hc. unfold ascii_only_isalnum. apply N.ltb_lt in Hc. by rewrite Hc. Qed.

Lemma ascii_isalnum_not_space c : ascii_isalnum c = true → isspace c = false.
Proof.
  unfold ascii_isalnum, isspace. intros H.
  apply not_true_is_false; intro H'. bool_to_arith; lia.
Qed.

Lemma ascii_isalnum_not_control c : ascii_isalnum c = true → is_control c = false.
Proof.
  unfold ascii_isalnum, is_control. intros H.
  apply not_true_is_false; intro H'. bool_to_arith; lia.
Qed.

Lemma ascii_only_not_space c : ascii_only_isalnum c = true → isspace c = false.
Proof. intros [_ H]%andb_prop. by apply ascii_isalnum_not_space. Qed.

Lemma ascii_only_not_control c : ascii_only_isalnum c = true → is_control c = false.
Proof. intros [_ H]%andb_prop. by apply ascii_isalnum_not_control. Qed.

Instance ascii_table : CharTable :=
  Build_CharTable ascii_only_isalnum ascii_only_ascii
                  ascii_only_not_space ascii_only_not_control.

Example split_ex : split (py "  ab  c d ") = [py "ab"; py "c"; py "d"].
Proof. reflexivity. Qed.
Example strip_ex : strip (py "  ab  c d ") = py "ab  c d".
Proof. reflexivity. Qed.
Example sanitize_ex1 : sanitize (py " Canon: EOS*5D  ") = py "Canon EOS 5D".
Proof. reflexivity. Qed.
Example sanitize_ex2 : sanitize (py "a/b\c") = py "a/b c".
Proof. reflexivity. Qed.
Example sanitize_ex3 : sanitize (py "***") = py "Unknown".
Proof. reflexivity. Qed.
Example sanitize_ex4 : sanitize (py "../../etc") = py "../../etc".
Proof. reflexivity. Qed.
Example sanitize_ex5 : sanitize (py "24-70mm F/2.8") = py "24-70mm F/2.8".
Proof. reflexivity. Qed.

(** ** Strings *)

Lemma isspace_SPACE : isspace SPACE = true.
Proof. reflexivity. Qed.

Lemma lstrip_suffix s : ∃ pre, s = pre ++ lstrip s.
Proof.
  induction s as [|c s [pre IH]]; [by exists []|]. simpl.
  destruct (isspace c); [|by exists []].
  exists (c :: pre). simpl. by f_equal.
Qed.

Lemma rstrip_prefix s : ∃ suf, s = rstrip s ++ suf.
Proof.
  induction s as [|c s [suf IH]]; [by exists []|]. simpl.
  destruct (rstrip s) as [|r rs] eqn:Hr.
  - destruct (isspace c).
    + exists (c :: s). done.
    + exists suf. simpl in *. by f_equal.
  - exists suf. simpl in *. by f_equal.
Qed.

Lemma strip_sub s c : c ∈ strip s → c ∈ s.
Proof.
  unfold strip. intros Hc.
  destruct (lstrip_suffix s) as [pre Hpre].
  destruct (rstrip_prefix (lstrip s)) as [suf Hsuf].
  rewrite Hpre, Hsuf. set_solver.
Qed.

Lemma length_strip s : (length (strip s) ≤ length s)%nat.
Proof.
  unfold strip.
  destruct (lstrip_suffix s) as [pre Hpre].
  destruct (rstrip_prefix (lstrip s)) as [suf Hsuf].
  rewrite Hpre at 2. rewrite Hsuf at 2. rewrite !length_app. lia.
Qed.

(** Every word of [split] is non-empty and made of non-whitespace
    characters of the argument. *)
Lemma split_words s :
  Forall (λ w, w ≠ [] ∧ Forall (λ c, isspace c = false ∧ c ∈ s) w) (split s).
Proof.
  induction s as [|c s IH]; simpl; [constructor|].
  assert (IH' : Forall (λ w, w ≠ [] ∧
             Forall (λ x, isspace x = false ∧ x ∈ c :: s) w) (split s)).
  { eapply Forall_impl; [exact IH|]. intros w [Hw Hf]. split; [done|].
    eapply Forall_impl; [exact Hf|]. intros x [? ?]. split; [done|set_solver]. }
  destruct (isspace c) eqn:Hc; [done|].
  assert (Hone : Forall (λ x, isspace x = false ∧ x ∈ c :: s) [c]).
  { repeat constructor; done. }
  destruct (starts_word s).
  - destruct (split s) as [|w ws]; [by repeat constructor|].
    inversion IH' as [|? ? [Hw Hf] Hws]; subst.
    constructor; [|done]. split; [done|]. constructor; [|done].
    split; [done|set_solver].
  - constructor; [|done]. split; done.
Qed.

Lemma join_chars sep ws c :
  c ∈ join sep ws → c ∈ sep ∨ ∃ w, w ∈ ws ∧ c ∈ w.
Proof.
  induction ws as [|w ws IH]; simpl; [by intros ?%elem_of_nil|].
  destruct ws as [|w' ws'].
  - intros Hc. right. exists w. split; [left|done].
  - rewrite !elem_of_app. intros [Hc|[Hc|Hc]].
    + right. exists w. split; [left|done].
    + by left.
    + destruct (IH Hc) as [?|(w0 & Hw0 & ?)]; [by left|].
      right. exists w0. split; [by right|done].
Qed.

Lemma length_join_cons w ws :
  ws ≠ [] → length (join [SPACE] (w :: ws)) = (length w + 1 + length (join [SPACE] ws))%nat.
Proof. destruct ws; [done|]. intros _. simpl. rewrite !length_app. simpl. lia. Qed.

Lemma length_join_split_aux s :
  (length (join [SPACE] (split s)) ≤ length s)%nat ∧
  (starts_word s = false → split s ≠ [] →
   (S (length (join [SPACE] (split s))) ≤ length s)%nat).
Proof.
  induction s as [|c s [IH1 IH2]]; [by split|].
  split.
  - cbn [split]. destruct (isspace c); [simpl; lia|].
    destruct (starts_word s) eqn:Hs.
    + destruct (split s) as [|w ws]; [simpl; lia|].
      destruct ws as [|w2 ws]; [simpl in *; lia|].
      rewrite length_join_cons in IH1 |- * by done. simpl in *. lia.
    + destruct (split s) as [|w ws] eqn:Hsp; [simpl; lia|].
      rewrite length_join_cons by done.
      specialize (IH2 eq_refl ltac:(done)). simpl in *. lia.
  - cbn [split starts_word]. intros Hc. apply negb_false_iff in Hc. rewrite Hc.
    intros Hne. destruct (decide (split s = [])) as [He|He]; [by rewrite He in Hne|].
    destruct (starts_word s) eqn:Hs; [simpl; lia|].
    specialize (IH2 eq_refl He). simpl. lia.
Qed.

Lemma length_join_split s : (length (join [SPACE] (split s)) ≤ length s)%nat.
Proof. apply length_join_split_aux. Qed.

(** ** PathSanitizer *)

Section SanitizeFacts.
Context `{CharTable}.

Lemma sanitize_unfold name :
  name ≠ [] → sanitize name = truncated (collapsed name).
Proof. by destruct name. Qed.

Lemma safe_char_SPACE : safe_char SPACE = true.
Proof. unfold safe_char. by rewrite orb_true_r. Qed.

Lemma safe_char_ascii c :
  c < 128 → safe_char c = ascii_isalnum c || in_str c SAFE_PUNCT.
Proof. intros Hc. unfold safe_char. by rewrite isalnum_ascii. Qed.

Lemma UNKNOWN_safe c : c ∈ UNKNOWN → safe_char c = true.
Proof.
  unfold UNKNOWN. intros Hc.
  assert (Hlt : c < 128).
  { repeat (apply elem_of_cons in Hc as [->|Hc]; [reflexivity|]). inversion Hc. }
  rewrite safe_char_ascii by done.
  repeat (apply elem_of_cons in Hc as [->|Hc]; [reflexivity|]). inversion Hc.
Qed.

Lemma collapsed_safe name c : c ∈ collapsed name → safe_char c = true.
Proof.
  unfold collapsed. intros Hc.
  apply join_chars in Hc as [Hc|(w & Hw & Hc)].
  - apply list_elem_of_singleton in Hc as ->. apply safe_char_SPACE.
  - pose proof (split_words ((λ ch, if safe_char ch then ch else SPACE) <$> strip name)) as Hs.
    rewrite Forall_forall in Hs. destruct (Hs w Hw) as [_ Hf].
    rewrite Forall_forall in Hf. destruct (Hf c Hc) as [_ Hin].
    apply list_elem_of_fmap in Hin as (x & -> & _).
    destruct (safe_char x) eqn:Hx; [done|apply safe_char_SPACE].
Qed.

Lemma truncated_sub s c : c ∈ truncated s → c ∈ UNKNOWN ∨ c ∈ s.
Proof.
  unfold truncated.
  destruct (120 <? length s)%nat.
  - destruct (take 120 s) eqn:Ht; [by left|]. rewrite <- Ht.
    intros Hc. right. rewrite <- (take_drop 120 s). set_solver.
  - destruct s; [by left|by right].
Qed.

(** Every character of a sanitized name is alphanumeric or one of the
    accepted punctuation characters. *)
Lemma sanitize_safe name c : c ∈ sanitize name → safe_char c = true.
Proof.
  destruct name as [|x name]; [apply UNKNOWN_safe|].
  rewrite sanitize_unfold by done.
  intros [Hc|Hc]%truncated_sub; [by apply UNKNOWN_safe|by eapply collapsed_safe].
Qed.

Lemma safe_char_not_control c : safe_char c = true → is_control c = false.
Proof.
  unfold safe_char. intros [Hc|Hc]%orb_prop; [by apply isalnum_not_control|].
  unfold in_str, SAFE_PUNCT in Hc. simpl in Hc.
  unfold is_control. apply not_true_is_false; intro H'. bool_to_arith; lia.
Qed.

Lemma safe_char_not_backslash : safe_char BACKSLASH = false.
Proof. by rewrite safe_char_ascii. Qed.

(** The part of the path-segment guarantee that holds: no backslash and
    no control character survives. *)
Lemma sanitize_no_backslash_no_control name c :
  c ∈ sanitize name → c ≠ BACKSLASH ∧ is_control c = false.
Proof.
  intros Hc%sanitize_safe. split; [|by apply safe_char_not_control].
  intros ->. by rewrite safe_char_not_backslash in Hc.
Qed.

Lemma sanitize_nonempty name : sanitize name ≠ [].
Proof.
  destruct name as [|x name]; [done|].
  rewrite sanitize_unfold by done. unfold truncated.
  by destruct (if (120 <? length (collapsed (x :: name)))%nat then _ else _).
Qed.
End SanitizeFacts.

(** On ASCII input every character table gives the same result. *)
Lemma sanitize_ascii_agree `{CharTable} name :
  is_ascii name = true → sanitize name = @sanitize ascii_table name.
Proof.
  intros Ha. destruct name as [|x name]; [done|].
  rewrite !sanitize_unfold by done. f_equal. unfold collapsed. do 2 f_equal.
  apply list_fmap_ext. intros i c Hc.
  assert (Hin : c ∈ x :: name).
  { apply strip_sub. by eapply list_elem_of_lookup_2. }
  unfold is_ascii in Ha. rewrite forallb_forall in Ha.
  assert (Hlt : c < 128) by (apply N.ltb_lt, Ha, list_elem_of_In, Hin).
  rewrite (safe_char_ascii (H:=H)), (safe_char_ascii (H:=ascii_table)); done.
Qed.

(** C1: [sanitize] keeps the path separator ['/']: the name ["a/b"] is
    returned unchanged, for every character table, so the result is not a
    single path segment. *)
Theorem sanitize_keeps_separator :
  ∀ T : CharTable,
    @sanitize T (py "a/b") = py "a/b" ∧ SLASH ∈ @sanitize T (py "a/b").
Proof.
  intros T. rewrite sanitize_ascii_agree by reflexivity.
  split; [reflexivity|]. vm_compute. apply list_elem_of_In. simpl. tauto.
Qed.

(** *** Idempotence of [sanitize] *)

Lemma split_cons c s :
  split (c :: s) =
    if isspace c then split s
    else if starts_word s then
      match split s with
      | w :: ws => (c :: w) :: ws
      | [] => [[c]]
      end
    else [c] :: split s.
Proof. reflexivity. Qed.

Lemma rstrip_cons c s :
  rstrip (c :: s) =
    match rstrip s with
    | [] => if isspace c then [] else [c]
    | r => c :: r
    end.
Proof. reflexivity. Qed.

Lemma split_word_app w r :
  w ≠ [] → Forall (λ c, isspace c = false) w →
  split (w ++ SPACE :: r) = w :: split r.
Proof.
  induction w as [|c w IH]; [done|]. intros _ Hf.
  inversion Hf as [|? ? Hc Hw]; subst.
  rewrite <- app_comm_cons, split_cons, Hc.
  destruct w as [|c2 w].
  - by rewrite app_nil_l, split_cons.
  - inversion Hw as [|? ? Hc2 _]; subst.
    rewrite IH by done. simpl. by rewrite Hc2.
Qed.

Lemma split_word w :
  w ≠ [] → Forall (λ c, isspace c = false) w → split w = [w].
Proof.
  induction w as [|c w IH]; [done|]. intros _ Hf.
  inversion Hf as [|? ? Hc Hw]; subst.
  rewrite split_cons, Hc.
  destruct w as [|c2 w]; [done|].
  inversion Hw as [|? ? Hc2 _]; subst.
  rewrite IH by done. simpl. by rewrite Hc2.
Qed.

Section Idempotence.
Context `{CharTable}.

Lemma clean_word_nospace w :
  clean_word w → w ≠ [] ∧ Forall (λ c, isspace c = false) w.
Proof.
  intros [Hne Hf]. split; [done|]. eapply Forall_impl; [exact Hf|]. by intros c [? ?].
Qed.

Lemma split_join ws :
  Forall clean_word ws → split (join [SPACE] ws) = ws.
Proof.
  induction ws as [|w ws IH]; [done|]. intros Hf.
  inversion Hf as [|? ? Hw Hws]; subst.
  apply clean_word_nospace in Hw as [Hne Hns].
  destruct ws as [|w2 ws]; [by apply split_word|].
  change (join [SPACE] (w :: w2 :: ws)) with (w ++ SPACE :: join [SPACE] (w2 :: ws)).
  rewrite split_word_app by done. by rewrite IH.
Qed.

Lemma join_head_word w ws :
  clean_word w → ∃ c r, join [SPACE] (w :: ws) = c :: r ∧ isspace c = false.
Proof.
  intros [Hne Hf]. destruct w as [|c w]; [done|].
  inversion Hf as [|? ? [Hc _] _]; subst.
  destruct ws; simpl; eauto.
Qed.

Lemma lstrip_join ws :
  Forall clean_word ws → lstrip (join [SPACE] ws) = join [SPACE] ws.
Proof.
  destruct ws as [|w ws]; [done|]. intros Hf.
  inversion Hf as [|? ? Hw _]; subst.
  destruct (join_head_word w ws Hw) as (c & r & -> & Hc). simpl. by rewrite Hc.
Qed.

Lemma rstrip_id s :
  (∀ c, last s = Some c → isspace c = false) → rstrip s = s.
Proof.
  induction s as [|c s IH]; [done|]. intros Hl.
  destruct s as [|c2 s].
  - simpl. by rewrite (Hl c).
  - rewrite rstrip_cons, IH; [done|].
    intros x Hx. apply Hl. by rewrite last_cons_cons.
Qed.

Lemma last_join ws c :
  Forall clean_word ws → last (join [SPACE] ws) = Some c → isspace c = false.
Proof.
  induction ws as [|w ws IH]; [done|]. intros Hf Hl.
  inversion Hf as [|? ? Hw Hws]; subst.
  destruct ws as [|w2 ws].
  - simpl in Hl. apply last_Some_elem_of in Hl.
    destruct Hw as [_ Hw]. rewrite Forall_forall in Hw. by apply Hw.
  - change (join [SPACE] (w :: w2 :: ws))
      with (w ++ SPACE :: join [SPACE] (w2 :: ws)) in Hl.
    inversion Hws as [|? ? Hw2 _]; subst.
    destruct (join_head_word w2 ws Hw2) as (c2 & r & Hj & _).
    rewrite Hj in Hl, IH.
    change (w ++ SPACE :: c2 :: r) with (w ++ [SPACE] ++ c2 :: r) in Hl.
    rewrite app_assoc, last_app_cons in Hl. by apply IH.
Qed.

Lemma strip_join ws :
  Forall clean_word ws → strip (join [SPACE] ws) = join [SPACE] ws.
Proof.
  intros Hf. unfold strip. rewrite lstrip_join by done.
  apply rstrip_id. intros c. by apply last_join.
Qed.

Lemma join_safe ws c :
  Forall clean_word ws → c ∈ join [SPACE] ws → safe_char c = true.
Proof.
  intros Hf [Hc|(w & Hw & Hc)]%join_chars.
  - apply list_elem_of_singleton in Hc as ->. apply safe_char_SPACE.
  - rewrite Forall_forall in Hf. destruct (Hf w Hw) as [_ Hfw].
    rewrite Forall_forall in Hfw. by apply Hfw.
Qed.

Lemma map_safe_id (s : pystr) :
  (∀ c, c ∈ s → safe_char c = true) →
  (λ ch, if safe_char ch then ch else SPACE) <$> s = s.
Proof.
  intros Hs. rewrite <- (list_fmap_id s) at 2.
  apply list_fmap_ext. intros i c Hc.
  by rewrite (Hs c) by (by eapply list_elem_of_lookup_2).
Qed.

(** A string of clean words joined by single spaces is a fixed point of
    the collapsing step. *)
Lemma collapsed_join ws :
  Forall clean_word ws → collapsed (join [SPACE] ws) = join [SPACE] ws.
Proof.
  intros Hf. unfold collapsed.
  rewrite strip_join, map_safe_id, split_join; try done.
  intros c. by apply join_safe.
Qed.

(** The collapsing step always produces such a string. *)
Lemma collapsed_words name :
  ∃ ws, Forall clean_word ws ∧ collapsed name = join [SPACE] ws.
Proof.
  eexists. split; [|reflexivity].
  eapply Forall_impl; [apply split_words|].
  intros w [Hne Hf]. split; [done|].
  eapply Forall_impl; [exact Hf|]. intros c [Hc Hin]. split; [done|].
  apply list_elem_of_fmap in Hin as (x & -> & _).
  destruct (safe_char x) eqn:Hx; [done|apply safe_char_SPACE].
Qed.

Lemma sanitize_join ws :
  Forall clean_word ws →
  sanitize (join [SPACE] ws) = truncated (join [SPACE] ws).
Proof.
  intros Hf. destruct (join [SPACE] ws) as [|c r] eqn:Hj; [done|].
  rewrite sanitize_unfold by done. rewrite <- Hj. by rewrite collapsed_join.
Qed.

Lemma sanitize_UNKNOWN : sanitize UNKNOWN = UNKNOWN.
Proof. by rewrite sanitize_ascii_agree. Qed.

(** A prefix of a clean string that does not end in a space is again a
    clean string. *)
Lemma take_join ws k :
  Forall clean_word ws →
  last (take k (join [SPACE] ws)) ≠ Some SPACE →
  ∃ ws', Forall clean_word ws' ∧ take k (join [SPACE] ws) = join [SPACE] ws'.
Proof.
  revert k. induction ws as [|w ws IH]; intros k Hf Hl.
  { exists []. split; [constructor|]. simpl. apply take_nil. }
  inversion Hf as [|? ? Hw Hws]; subst.
  assert (Hpre : ∀ n, ∃ ws', Forall clean_word ws' ∧ take n w = join [SPACE] ws').
  { intros n. destruct (take n w) as [|c r] eqn:Ht; [by exists []|].
    exists [take n w]. split; [|by rewrite Ht].
    constructor; [|done]. split; [by rewrite Ht|].
    destruct Hw as [_ Hw]. by apply Forall_take. }
  destruct ws as [|w2 ws]; [apply Hpre|].
  change (join [SPACE] (w :: w2 :: ws))
    with (w ++ SPACE :: join [SPACE] (w2 :: ws)) in *.
  destruct (decide (k ≤ length w)%nat) as [Hk|Hk].
  { rewrite take_app_le by done. apply Hpre. }
  rewrite take_app_ge in Hl |- * by lia.
  destruct (k - length w)%nat as [|k'] eqn:Hk'; [lia|]. cbn [take] in *.
  inversion Hws as [|? ? Hw2 _]; subst.
  destruct (join_head_word w2 ws Hw2) as (c2 & r & Hj & _).
  destruct k' as [|k''].
  { exfalso. apply Hl. rewrite take_0. by rewrite last_snoc. }
  destruct (IH (S k'') Hws) as (ws' & Hws' & Heq).
  { rewrite Hj in Hl |- *. cbn [take] in *.
    change (w ++ SPACE :: c2 :: take k'' r)
      with (w ++ [SPACE] ++ c2 :: take k'' r) in Hl.
    by rewrite app_assoc, last_app_cons in Hl. }
  exists (w :: ws'). split; [by constructor|].
  rewrite Heq. destruct ws' as [|w' ws']; [|done].
  rewrite Hj in Heq. done.
Qed.

Lemma truncated_small s :
  s ≠ [] → (length s ≤ 120)%nat → truncated s = s.
Proof.
  intros Hne Hlen. unfold truncated.
  apply Nat.ltb_ge in Hlen. rewrite Hlen. by destruct s.
Qed.

Lemma truncated_long s :
  (120 < length s)%nat → truncated s = take 120 s.
Proof.
  intros Hlen. unfold truncated.
  apply Nat.ltb_lt in Hlen as Hlen'. rewrite Hlen'.
  destruct s as [|c s]; [simpl in Hlen; lia|done].
Qed.

(** [sanitize] is idempotent on every input whose collapsed form fits
    into 120 characters, or whose 120th character is not a space. *)
Lemma sanitize_idempotent_if name :
  ((length (collapsed name) ≤ 120)%nat ∨ collapsed name !! 119%nat ≠ Some SPACE) →
  sanitize (sanitize name) = sanitize name.
Proof.
  intros Hcond. destruct name as [|x name]; [apply sanitize_UNKNOWN|].
  rewrite (sanitize_unfold (x :: name)) by done.
  destruct (collapsed_words (x :: name)) as (ws & Hws & Hc).
  rewrite Hc in *.
  assert (Htr : truncated (join [SPACE] ws) = UNKNOWN ∨
            ∃ ws', Forall clean_word ws' ∧
                   truncated (join [SPACE] ws) = join [SPACE] ws' ∧
                   join [SPACE] ws' ≠ [] ∧ (length (join [SPACE] ws') ≤ 120)%nat).
  { destruct (decide (120 < length (join [SPACE] ws))%nat) as [Hlen|Hlen].
    - destruct Hcond as [?|Hcond]; [lia|].
      destruct (take_join ws 120 Hws) as (ws' & Hws' & Heq).
      { rewrite last_lookup, length_take_le by lia. cbn [pred].
        by rewrite lookup_take_lt by lia. }
      right. exists ws'. rewrite truncated_long, <- Heq by done.
      split_and!; [done|done| |rewrite length_take; lia].
      intros [?|Hnil]%take_nil_inv; [done|]. rewrite Hnil in Hlen. simpl in Hlen. lia.
    - destruct (join [SPACE] ws) as [|c r] eqn:Hj; [by left|].
      right. exists ws. rewrite Hj.
      split_and!; [done| |done|lia]. apply truncated_small; [done|lia]. }
  destruct Htr as [->|(ws' & Hws' & -> & Hne & Hlen)]; [apply sanitize_UNKNOWN|].
  rewrite sanitize_join by done. by apply truncated_small.
Qed.

Lemma rstrip_last s c : last (rstrip s) = Some c → isspace c = false.
Proof.
  induction s as [|x s IH]; [done|]. rewrite rstrip_cons.
  destruct (rstrip s) as [|y ys].
  - destruct (isspace x) eqn:Hx; [done|]. simpl. by intros [= <-].
  - rewrite last_cons_cons. apply IH.
Qed.

Lemma length_strip_lt s :
  last s = Some SPACE → (length (strip s) < length s)%nat.
Proof.
  intros Hl. unfold strip.
  destruct (lstrip_suffix s) as [pre Hpre].
  destruct (rstrip_prefix (lstrip s)) as [suf Hsuf].
  destruct (lstrip s) as [|u us] eqn:Hu.
  { simpl. destruct s; [done|simpl; lia]. }
  destruct suf as [|y suf].
  - exfalso. rewrite app_nil_r in Hsuf.
    rewrite Hpre, last_app_cons in Hl. rewrite Hsuf in Hl.
    apply rstrip_last in Hl. done.
  - rewrite Hpre. rewrite Hsuf at 2. rewrite !length_app. simpl. lia.
Qed.

(** Conversely, when truncation cuts right after a separating space,
    the second application removes that space. *)
Lemma sanitize_idempotent_only_if name :
  (120 < length (collapsed name))%nat → collapsed name !! 119%nat = Some SPACE →
  sanitize (sanitize name) ≠ sanitize name.
Proof.
  intros Hlen Hsp Heq.
  assert (Hne : name ≠ []) by (intros ->; simpl in Hlen; lia).
  rewrite (sanitize_unfold name), truncated_long in Heq by done.
  set (t := take 120 (collapsed name)) in *.
  assert (Ht : length t = 120%nat) by (unfold t; rewrite length_take_le; lia).
  assert (Hlast : last t = Some SPACE).
  { rewrite last_lookup, Ht. unfold t. by rewrite lookup_take_lt by lia. }
  assert (Hshort : (length (sanitize t) < 120)%nat); [|rewrite Heq in Hshort; lia].
  rewrite sanitize_unfold by (intros Hnil; by rewrite Hnil in Ht).
  pose proof (length_strip_lt t Hlast) as Hstrip.
  assert (Hcol : (length (collapsed t) < 120)%nat).
  { unfold collapsed. eapply Nat.le_lt_trans; [apply length_join_split|].
    rewrite length_fmap. lia. }
  destruct (collapsed t) as [|c r] eqn:Hc; [simpl; lia|].
  rewrite truncated_small; [done|done|lia].
Qed.
End Idempotence.

(** C4: [sanitize] is not idempotent.  For 119 letters followed by a space
    and one more letter, truncation at 120 characters leaves a trailing
    space, which a second application removes; this holds for every
    character table. *)
Theorem sanitize_not_idempotent :
  ∀ T : CharTable,
    let x := replicate 119 97 ++ py " b" in
    @sanitize T x = replicate 119 97 ++ [SPACE] ∧
    @sanitize T (@sanitize T x) = replicate 119 97 ∧
    @sanitize T (@sanitize T x) ≠ @sanitize T x.
Proof.
  intros T x.
  assert (H1 : @sanitize T x = replicate 119 97 ++ [SPACE]).
  { rewrite sanitize_ascii_agree by reflexivity. by vm_compute. }
  assert (H2 : @sanitize T (@sanitize T x) = replicate 119 97).
  { rewrite H1. rewrite sanitize_ascii_agree by reflexivity. by vm_compute. }
  split_and!; [done|done|]. rewrite H2, H1. intros Heq.
  apply (f_equal length) in Heq. by vm_compute in Heq.
Qed.

(** ** MetadataResolver *)

Lemma sanitize_unknown_camera `{CharTable} :
  sanitize (py "Unknown Camera") = py "Unknown Camera".
Proof. by rewrite sanitize_ascii_agree. Qed.

Lemma sanitize_unknown_lens `{CharTable} :
  sanitize (py "Unknown Lens") = py "Unknown Lens".
Proof. by rewrite sanitize_ascii_agree. Qed.

(** The three [if not x and y: x = y] updates keep the first value that
    counts as true. *)
Lemma fill_value_first_truthy (c1 c2 c3 : option json) (dflt : json) :
  (if json_true (fill_value (fill_value (if json_true c1 then c1 else None) c2) c3)
   then default (J_str [])
          (fill_value (fill_value (if json_true c1 then c1 else None) c2) c3)
   else dflt)
  = default dflt (first_truthy [c1; c2; c3]).
Proof.
  destruct c1 as [[[|??]|[|] ?]|], c2 as [[[|??]|[|] ?]|],
           c3 as [[[|??]|[|] ?]|]; reflexivity.
Qed.

Lemma truthy_json_true (c : option pystr) :
  truthy c = json_true (J_str <$> c).
Proof. by destruct c as [[|??]|]. Qed.

(** [extract_meta] written with the winning values. *)
Lemma extract_meta_closed_form `{CharTable} (E : MetaSource) (path : pystr)
    d1 c1 l1 d2 c2 l2 d3 c3 l3 :
  exif_from_pillow E path = (d1, c1, l1) →
  exif_from_exifread E path = (d2, c2, l2) →
  exif_from_exiftool E path = (d3, c3, l3) →
  extract_meta E path =
    match sanitize_value (default (J_str (py "Unknown Camera"))
                            (first_truthy [J_str <$> c1; J_str <$> c2; c3])) with
    | None => None
    | Some cam =>
        match sanitize_value (default (J_str (py "Unknown Lens"))
                                (first_truthy [J_str <$> l1; J_str <$> l2; l3])) with
        | None => None
        | Some lens =>
            let dto := default (default (now E) (stat_mtime E path))
                         (first_some [d1; d2; d3]) in
            let ext := lower (path_suffix path) in
            let kind :=
              if in_set ext RAW_EXT then py "raw"
              else if in_set ext PROC_EXT then py "jpg"
              else py "other" in
            Some {| m_path := path; m_dt := dto;
                    m_year := fmt_Y dto; m_month := fmt_Ym dto;
                    m_date := fmt_Ymd dto;
                    m_camera := cam; m_lens := lens; m_kind := kind |}
        end
    end.
Proof.
  intros H1 H2 H3. unfold extract_meta. rewrite H1, H2, H3.
  rewrite !truthy_json_true. cbv zeta.
  rewrite !fill_value_first_truthy.
  assert (Hd : match fill (fill (if bool_decide (is_Some d1) then d1 else None) d2
                             (bool_decide (is_Some d2))) d3 (bool_decide (is_Some d3)) with
               | Some d => d
               | None => match stat_mtime E path with Some d => d | None => now E end
               end
               = default (default (now E) (stat_mtime E path)) (first_some [d1; d2; d3])).
  { destruct d1, d2, d3; try reflexivity; by destruct (stat_mtime E path). }
  rewrite Hd. reflexivity.
Qed.

(** C5: whenever [extract_meta] returns a record, each of timestamp,
    camera and lens comes from the first strategy, in the order Pillow,
    exifread, exiftool, that yields a non-empty value, and a later
    strategy never replaces it; the timestamp is stored as found, the
    camera and the lens are stored as [sanitize] of that value.  It does
    return a record when the winning camera and lens values are strings. *)
Theorem extract_meta_first_wins `{CharTable} (E : MetaSource) (path : pystr) :
  ∀ d1 c1 l1 d2 c2 l2 d3 c3 l3,
    exif_from_pillow E path = (d1, c1, l1) →
    exif_from_exifread E path = (d2, c2, l2) →
    exif_from_exiftool E path = (d3, c3, l3) →
    let cam := default (J_str (py "Unknown Camera"))
                 (first_truthy [J_str <$> c1; J_str <$> c2; c3]) in
    let lens := default (J_str (py "Unknown Lens"))
                  (first_truthy [J_str <$> l1; J_str <$> l2; l3]) in
    (∀ r, extract_meta E path = Some r →
       (m_dt r = default (default (now E) (stat_mtime E path)) (first_some [d1; d2; d3])
        ∧ sanitize_value cam = Some (m_camera r)
        ∧ sanitize_value lens = Some (m_lens r))
       ∧ (∀ a, c1 = Some a → a ≠ [] → m_camera r = sanitize a)
       ∧ (∀ a, truthy c1 = false → c2 = Some a → a ≠ [] → m_camera r = sanitize a)
       ∧ (∀ a, truthy c1 = false → truthy c2 = false → c3 = Some (J_str a) →
               a ≠ [] → m_camera r = sanitize a)
       ∧ (∀ a, l1 = Some a → a ≠ [] → m_lens r = sanitize a)
       ∧ (∀ a, truthy l1 = false → l2 = Some a → a ≠ [] → m_lens r = sanitize a)
       ∧ (∀ a, truthy l1 = false → truthy l2 = false → l3 = Some (J_str a) →
               a ≠ [] → m_lens r = sanitize a)
       ∧ (∀ d, d1 = Some d → m_dt r = d)
       ∧ (∀ d, d1 = None → d2 = Some d → m_dt r = d)
       ∧ (∀ d, d1 = None → d2 = None → d3 = Some d → m_dt r = d))
    ∧ ((∃ a, cam = J_str a) → (∃ b, lens = J_str b) →
       is_Some (extract_meta E path)).
Proof.
  intros d1 c1 l1 d2 c2 l2 d3 c3 l3 H1 H2 H3 cam lens.
  rewrite (extract_meta_closed_form E path _ _ _ _ _ _ _ _ _ H1 H2 H3).
  fold cam lens. split.
  - intros r Hr.
    destruct (sanitize_value cam) as [sc|] eqn:Hsc; [|done].
    destruct (sanitize_value lens) as [sl|] eqn:Hsl; [|done].
    cbn in Hr. injection Hr as <-. cbn [m_dt m_camera m_lens].
    split_and!; try done.
    + intros [|x a] -> Ha; [done|].
      change (Some (sanitize (x :: a)) = Some sc) in Hsc. congruence.
    + intros [|x a] Hc1 -> Ha; [done|].
      destruct c1 as [[|??]|]; try discriminate;
        change (Some (sanitize (x :: a)) = Some sc) in Hsc; congruence.
    + intros [|x a] Hc1 Hc2 -> Ha; [done|].
      destruct c1 as [[|??]|]; try discriminate;
        destruct c2 as [[|??]|]; try discriminate;
        change (Some (sanitize (x :: a)) = Some sc) in Hsc; congruence.
    + intros [|x a] -> Ha; [done|].
      change (Some (sanitize (x :: a)) = Some sl) in Hsl. congruence.
    + intros [|x a] Hl1 -> Ha; [done|].
      destruct l1 as [[|??]|]; try discriminate;
        change (Some (sanitize (x :: a)) = Some sl) in Hsl; congruence.
    + intros [|x a] Hl1 Hl2 -> Ha; [done|].
      destruct l1 as [[|??]|]; try discriminate;
        destruct l2 as [[|??]|]; try discriminate;
        change (Some (sanitize (x :: a)) = Some sl) in Hsl; congruence.
    + by intros d ->.
    + by intros d -> ->.
    + by intros d -> -> ->.
  - intros [a ->] [b ->]. by eexists.
Qed.

Lemma extract_meta_first_wins_witness :
  ∃ r, @extract_meta ascii_table two_cameras (py "a.jpg") = Some r
       ∧ m_camera r = py "Camera A".
Proof.
  destruct (@extract_meta_first_wins ascii_table two_cameras (py "a.jpg")
    None (Some (py "Camera A")) None None None None
    None (Some (J_str (py "Camera B"))) None eq_refl eq_refl eq_refl) as [Hw Hs].
  destruct Hs as [r Hr]; [eexists; reflexivity|eexists; reflexivity|].
  exists r. split; [exact Hr|].
  destruct (Hw r Hr) as (_ & Hc & _).
  rewrite (Hc (py "Camera A") eq_refl ltac:(discriminate)). reflexivity.
Defined.

(** C5, as the specification words it, fails: the record does not hold the
    value Pillow found.  Pillow reports the camera "Canon: EOS"; the
    record's camera is "Canon EOS". *)
Lemma extract_meta_camera_differs_from_found :
  exif_from_pillow colon_source (py "a.jpg") = (None, Some (py "Canon: EOS"), None)
  ∧ ∃ r, @extract_meta ascii_table colon_source (py "a.jpg") = Some r
         ∧ m_camera r = py "Canon EOS"
         ∧ m_camera r ≠ py "Canon: EOS".
Proof.
  split; [vm_compute; reflexivity|].
  eexists. split; [vm_compute; reflexivity|]. split; [reflexivity|discriminate].
Qed.

(** A reader that raises contributes nothing. *)
Lemma exif_from_pillow_failure E path :
  PIL_OK E = false ∨ pil_getexif E path = None →
  exif_from_pillow E path = NO_EXIF.
Proof.
  unfold exif_from_pillow. intros [->| ->]; [done|]. by destruct (PIL_OK E).
Qed.

Lemma exif_from_exifread_failure E path :
  EXIFREAD_OK E = false ∨ exifread_process_file E path = None →
  exif_from_exifread E path = NO_EXIF.
Proof.
  unfold exif_from_exifread. intros [->| ->]; [done|]. by destruct (EXIFREAD_OK E).
Qed.

Lemma exif_from_exiftool_failure E path :
  which_exiftool E = None ∨ (∀ exe, exiftool_json E exe path = None) →
  exif_from_exiftool E path = NO_EXIFTOOL.
Proof.
  unfold exif_from_exiftool. intros [->|Hf]; [done|].
  destruct (which_exiftool E); [|done]. by rewrite Hf.
Qed.

(** C6: [extract_meta] does not always return a record.  When exiftool
    prints the model as a number, here 6300, that number reaches
    [sanitize] as it is, [name.strip()] raises [AttributeError], and the
    exception leaves [extract_meta]: no record is returned, whatever the
    character table. *)
Theorem extract_meta_raises_on_numeric_model :
  exiftool_json numeric_model_source (py "exiftool") (py "x/IMG_1.CR2")
    = Some {[ py "Model" := J_num true (py "6300") ]}
  ∧ exif_from_exiftool numeric_model_source (py "x/IMG_1.CR2")
    = (None, Some (J_num true (py "6300")), None)
  ∧ sanitize_value (J_num true (py "6300")) = None
  ∧ ∀ T : CharTable,
      @extract_meta T numeric_model_source (py "x/IMG_1.CR2") = None.
Proof.
  split_and!; [reflexivity|vm_compute; reflexivity|reflexivity|].
  intros T.
  rewrite (extract_meta_closed_form numeric_model_source (py "x/IMG_1.CR2")
             None None None None None None
             None (Some (J_num true (py "6300"))) None);
    [reflexivity|reflexivity|reflexivity|vm_compute; reflexivity].
Qed.

(** ** Worker count *)

(** C8: under the policy "ask" the execution phase uses one worker,
    whatever the configured count, the scan summary shows the same count,
    and the sequential branch runs; under any other policy the configured
    count, raised to at least 1, is used and shown. *)
Theorem ask_forces_single_worker (cfg : config) :
  (policy cfg = py "ask" →
     exec_workers cfg = 1%Z ∧ eff_workers cfg = 1%Z ∧ runs_parallel cfg = false)
  ∧ (policy cfg ≠ py "ask" →
     exec_workers cfg = Z.max 1 (max_workers cfg)
     ∧ eff_workers cfg = Z.max 1 (max_workers cfg)).
Proof.
  unfold runs_parallel, exec_workers, eff_workers, pystr_eqb. split.
  - intros ->. rewrite bool_decide_eq_true_2 by done. cbn [andb].
    destruct (1 <? Z.max 1 (max_workers cfg))%Z eqn:Hw; [done|].
    split_and!; [|done|]; [|rewrite Hw]; [|done]. apply Z.ltb_ge in Hw. lia.
  - intros Hp. by rewrite bool_decide_eq_false_2 by done.
Qed.

Lemma ask_forces_single_worker_witness :
  exec_workers eight_workers_ask = 1%Z ∧ eff_workers eight_workers_ask = 1%Z
  ∧ runs_parallel eight_workers_ask = false.
Proof.
  exact (proj1 (ask_forces_single_worker eight_workers_ask) eq_refl).
Defined.

(** ** Planner *)

Section PlanFacts.
Context `{CharTable}.
Variable cfg : config.

Lemma plan_files_setdefault_append (plan : gmap pystr (list pystr)) k v :
  plan_files (setdefault_append plan k v) ≡ₚ plan_files plan ++ [v].
Proof.
  unfold plan_files, setdefault_append.
  destruct (plan !! k) as [l|] eqn:Hk; cbn [default].
  - rewrite <- (insert_delete_eq plan).
    rewrite map_to_list_insert by apply lookup_delete_eq.
    rewrite <- (map_to_list_delete plan k l Hk).
    cbn [fmap list_fmap concat snd]. rewrite <- !(assoc_L (++)).
    apply Permutation_app_head, Permutation_app_comm.
  - rewrite map_to_list_insert by done.
    cbn [fmap list_fmap concat snd app]. apply Permutation_cons_append.
Qed.

Lemma build_plan_snoc metas m :
  build_plan cfg (metas ++ [m]) =
    setdefault_append (build_plan cfg metas) (_target_dir_for cfg m) (m_path m).
Proof. unfold build_plan. by rewrite foldl_snoc. Qed.

Lemma build_plan_files metas :
  plan_files (build_plan cfg metas) ≡ₚ m_path <$> metas.
Proof.
  induction metas as [|m metas IH] using rev_ind.
  - unfold build_plan, plan_files. simpl. by rewrite map_to_list_empty.
  - rewrite build_plan_snoc, plan_files_setdefault_append, IH.
    by rewrite fmap_app.
Qed.

Lemma setdefault_append_lookup (plan : gmap pystr (list pystr)) k v d :
  setdefault_append plan k v !! d =
    if decide (k = d) then Some (default [] (plan !! k) ++ [v]) else plan !! d.
Proof. unfold setdefault_append. apply lookup_insert. Qed.

(** Every file of a bucket belongs to a record whose destination
    directory is that bucket's key. *)
Lemma build_plan_sound metas d l p :
  build_plan cfg metas !! d = Some l → p ∈ l →
  ∃ m, m ∈ metas ∧ m_path m = p ∧ _target_dir_for cfg m = d.
Proof.
  revert d l p. induction metas as [|m metas IH] using rev_ind; intros d l p.
  - unfold build_plan. simpl. by rewrite lookup_empty.
  - rewrite build_plan_snoc, setdefault_append_lookup.
    destruct (decide (_target_dir_for cfg m = d)) as [Hd|Hd].
    + intros [= <-] [Hp|Hp]%elem_of_app.
      * destruct (build_plan cfg metas !! _target_dir_for cfg m) as [l0|] eqn:Hl;
          [|by apply elem_of_nil in Hp].
        rewrite <- Hd in *.
        destruct (IH _ _ _ Hl Hp) as (m0 & ? & ? & ?).
        exists m0. split_and!; [|done..]. apply elem_of_app. by left.
      * apply list_elem_of_singleton in Hp as ->.
        exists m. split_and!; [|done..]. apply elem_of_app. right. by left.
    + intros Hl Hp. destruct (IH _ _ _ Hl Hp) as (m0 & ? & ? & ?).
      exists m0. split_and!; [|done..]. apply elem_of_app. by left.
Qed.

(** Every record is filed under its own destination directory. *)
Lemma build_plan_complete metas m :
  m ∈ metas →
  ∃ l, build_plan cfg metas !! _target_dir_for cfg m = Some l ∧ m_path m ∈ l.
Proof.
  induction metas as [|m' metas IH] using rev_ind; [by intros ?%elem_of_nil|].
  rewrite build_plan_snoc, setdefault_append_lookup.
  intros [Hm|Hm]%elem_of_app.
  - destruct (IH Hm) as (l & Hl & Hp).
    destruct (decide (_target_dir_for cfg m' = _target_dir_for cfg m)) as [Hd|Hd].
    + eexists. split; [done|]. rewrite Hd, Hl. apply elem_of_app. by left.
    + by exists l.
  - apply list_elem_of_singleton in Hm as ->.
    rewrite decide_True by done. eexists. split; [done|].
    apply elem_of_app. right. by left.
Qed.

Lemma NoDup_fmap_inj_on {A B} (f : A → B) (l : list A) x y :
  NoDup (f <$> l) → x ∈ l → y ∈ l → f x = f y → x = y.
Proof.
  induction l as [|a l IH]; [by intros _ ?%elem_of_nil|].
  rewrite fmap_cons, NoDup_cons. intros [Ha Hl] Hx Hy Hf.
  apply elem_of_cons in Hx as [->|Hx]; apply elem_of_cons in Hy as [->|Hy].
  - done.
  - exfalso. apply Ha. rewrite Hf. by apply list_elem_of_fmap_2.
  - exfalso. apply Ha. rewrite <- Hf. by apply list_elem_of_fmap_2.
  - by apply IH.
Qed.
End PlanFacts.

(** C7: the plan partitions the scanned files.  The files of all buckets
    together are exactly the input paths, each as often as it occurs in the
    input; every record is in the bucket of its own destination directory;
    and when the input paths are distinct no path occurs twice in the plan,
    neither in two buckets nor twice in one. *)
Theorem build_plan_partition `{CharTable} (cfg : config) (metas : list meta) :
  let plan := build_plan cfg metas in
  plan_files plan ≡ₚ m_path <$> metas
  ∧ (∀ m, m ∈ metas →
       ∃ l, plan !! _target_dir_for cfg m = Some l ∧ m_path m ∈ l)
  ∧ (NoDup (m_path <$> metas) →
       NoDup (plan_files plan)
       ∧ ∀ d1 d2 l1 l2 p,
           plan !! d1 = Some l1 → plan !! d2 = Some l2 →
           p ∈ l1 → p ∈ l2 → d1 = d2).
Proof.
  intros plan. subst plan. split_and!.
  - apply build_plan_files.
  - intros m. apply build_plan_complete.
  - intros Hnd. split.
    + by rewrite build_plan_files.
    + intros d1 d2 l1 l2 p Hl1 Hl2 Hp1 Hp2.
      destruct (build_plan_sound cfg metas d1 l1 p Hl1 Hp1) as (m1 & Hm1 & Hq1 & <-).
      destruct (build_plan_sound cfg metas d2 l2 p Hl2 Hp2) as (m2 & Hm2 & Hq2 & <-).
      f_equal. apply (NoDup_fmap_inj_on m_path metas); [done..|congruence].
Qed.

(** ** Filesystem *)

Lemma with_fs_id st : with_fs st (fs st) = st.
Proof. by destruct st. Qed.

Lemma is_dir_lookup (fs0 : filesystem) p : is_dir fs0 p = true ↔ fs0 !! p = Some Dir.
Proof. unfold is_dir. destruct (fs0 !! p) as [[]|]; naive_solver. Qed.

Lemma path_exists_lookup (fs0 : filesystem) p :
  path_exists fs0 p = true ↔ is_Some (fs0 !! p).
Proof. unfold path_exists. apply bool_decide_eq_true. Qed.

Lemma path_exists_false (fs0 : filesystem) p :
  path_exists fs0 p = false ↔ fs0 !! p = None.
Proof.
  unfold path_exists. rewrite bool_decide_eq_false. split.
  - intros Hn. by apply eq_None_not_Some.
  - intros ->. by intros [? ?].
Qed.

(** An existing directory is left alone. *)
Lemma mkdir_p_existing (fs0 : filesystem) d :
  is_dir fs0 d = true → mkdir_p fs0 d = (fs0, true).
Proof. intros Hd%is_dir_lookup. unfold mkdir_p. by rewrite Hd. Qed.

(** ** ConflictResolver: hash check *)

Section HashSkip.
Context `{CharTable}.
Variable sha1_hexdigest : list N → pystr.
Variable ask_conflict : pystr → pystr → answer.
Variable cfg : config.

Lemma file_hash_unreadable (fs0 : filesystem) path :
  (fs0 !! path = None ∨ fs0 !! path = Some Dir
   ∨ ∃ data, fs0 !! path = Some (File data false)) →
  file_hash sha1_hexdigest fs0 path = [].
Proof.
  unfold file_hash. by intros [->|[->|[data ->]]].
Qed.

Lemma fs_do_skip st total src why : fs (do_skip st total src why).1 = fs st.
Proof.
  unfold do_skip, report_if_due. cbn [fst].
  by destruct (should_report _ _).
Qed.

Lemma counters_do_skip st total src why :
  let st' := (do_skip st total src why).1 in
  done st' = S (done st) ∧ skipped st' = S (skipped st)
  ∧ success st' = success st ∧ failed st' = failed st
  ∧ skipped_list st' = skipped_list st ++ [src]
  ∧ stop_flag st' = stop_flag st.
Proof.
  unfold do_skip, report_if_due. cbn [fst].
  by destruct (should_report _ _).
Qed.

Lemma process_hash_skip total st m :
  stop_flag st = false →
  skip_hash_dup cfg = true →
  is_dir (fs st) (_target_dir_for cfg m) = true →
  path_exists (fs st) (_target_dir_for cfg m </> path_name (m_path m)) = true →
  file_hash sha1_hexdigest (fs st) (m_path m)
    = file_hash sha1_hexdigest (fs st)
        (_target_dir_for cfg m </> path_name (m_path m)) →
  process sha1_hexdigest ask_conflict cfg total st m
    = do_skip st total (m_path m) skip_same_content.
Proof.
  intros Hstop Hskip Hdir Hex Hhash. unfold process.
  rewrite Hstop, (mkdir_p_existing _ _ Hdir), with_fs_id, Hex, Hskip, Hhash.
  unfold pystr_eqb. by rewrite bool_decide_eq_true_2.
Qed.
End HashSkip.

(** C9: with hash-skip enabled, a source whose destination exists with an
    equal digest is skipped as identical content, whatever the policy and
    whatever the operator would answer: the result is the skip branch
    applied to the unchanged state, the filesystem is left as it was,
    and only the skip counters move. *)
Theorem hash_skip_identical `{CharTable} (sha1_hexdigest : list N → pystr)
    (ask_conflict : pystr → pystr → answer) (cfg : config)
    (total : nat) (st : run_state) (m : meta) :
  let src := m_path m in
  let dst := _target_dir_for cfg m </> path_name src in
  stop_flag st = false →
  skip_hash_dup cfg = true →
  is_dir (fs st) (_target_dir_for cfg m) = true →
  path_exists (fs st) dst = true →
  file_hash sha1_hexdigest (fs st) src = file_hash sha1_hexdigest (fs st) dst →
  let r := process sha1_hexdigest ask_conflict cfg total st m in
  r = do_skip st total src skip_same_content
  ∧ r.2 = skip skip_same_content
  ∧ fs r.1 = fs st
  ∧ fs r.1 !! dst = fs st !! dst
  ∧ skipped r.1 = S (skipped st) ∧ done r.1 = S (done st)
  ∧ success r.1 = success st ∧ failed r.1 = failed st
  ∧ skipped_list r.1 = skipped_list st ++ [src].
Proof.
  intros src dst Hstop Hskip Hdir Hex Hhash r. subst r.
  rewrite (process_hash_skip sha1_hexdigest ask_conflict cfg total st m) by done.
  pose proof (counters_do_skip st total src skip_same_content) as Hc.
  cbv zeta in Hc. destruct Hc as (? & ? & ? & ? & ? & ?).
  rewrite fs_do_skip. split_and!; done.
Qed.

Example target_dir_sample :
  @_target_dir_for ascii_table (sample_cfg "rename" false 1)
    (sample_meta (py "/sd/IMG_1.jpg")) = sample_dir.
Proof. reflexivity. Qed.

Lemma hash_skip_identical_witness :
  let r := @process ascii_table toy_digest always_rename (sample_cfg "rename" true 4)
             1 (initial_state fs_same_content) (sample_meta (py "/sd/IMG_1.jpg")) in
  r.2 = skip skip_same_content ∧ fs r.1 = fs_same_content.
Proof.
  pose proof (@hash_skip_identical ascii_table toy_digest always_rename
    (sample_cfg "rename" true 4) 1 (initial_state fs_same_content)
    (sample_meta (py "/sd/IMG_1.jpg"))
    eq_refl eq_refl eq_refl eq_refl eq_refl) as Hw.
  cbv zeta in Hw. destruct Hw as (_ & Ho & Hfs & _). split; [exact Ho|exact Hfs].
Defined.

(** C10: [file_hash] of a file that cannot be read is the empty string;
    hence with hash-skip enabled a source and an existing destination that
    are both unreadable are taken to have identical content and the source
    is skipped, whatever their bytes are. *)
Theorem hash_skip_unreadable `{CharTable} (sha1_hexdigest : list N → pystr)
    (ask_conflict : pystr → pystr → answer) (cfg : config)
    (total : nat) (st : run_state) (m : meta) (data_src data_dst : list N) :
  let src := m_path m in
  let dst := _target_dir_for cfg m </> path_name src in
  stop_flag st = false →
  skip_hash_dup cfg = true →
  is_dir (fs st) (_target_dir_for cfg m) = true →
  fs st !! src = Some (File data_src false) →
  fs st !! dst = Some (File data_dst false) →
  let r := process sha1_hexdigest ask_conflict cfg total st m in
  file_hash sha1_hexdigest (fs st) src = []
  ∧ file_hash sha1_hexdigest (fs st) dst = []
  ∧ r = do_skip st total src skip_same_content
  ∧ r.2 = skip skip_same_content
  ∧ fs r.1 = fs st.
Proof.
  intros src dst Hstop Hskip Hdir Hsrc Hdst r. subst src dst.
  assert (Hs : file_hash sha1_hexdigest (fs st) (m_path m) = []).
  { apply file_hash_unreadable. right; right. by exists data_src. }
  assert (Hd : file_hash sha1_hexdigest (fs st)
                 (_target_dir_for cfg m </> path_name (m_path m)) = []).
  { apply file_hash_unreadable. right; right. by exists data_dst. }
  assert (Hr : r = do_skip st total (m_path m) skip_same_content).
  { subst r. apply process_hash_skip; try done.
    - apply path_exists_lookup. by rewrite Hdst.
    - by rewrite Hs, Hd. }
  split_and!; [done|done|done|by rewrite Hr|rewrite Hr; apply fs_do_skip].
Qed.

Lemma hash_skip_unreadable_witness :
  let r := @process ascii_table toy_digest always_rename (sample_cfg "rename" true 1)
             1 (initial_state fs_unreadable) (sample_meta (py "/sd/IMG_1.jpg")) in
  r.2 = skip skip_same_content ∧ fs r.1 = fs_unreadable.
Proof.
  pose proof (@hash_skip_unreadable ascii_table toy_digest always_rename
    (sample_cfg "rename" true 1) 1 (initial_state fs_unreadable)
    (sample_meta (py "/sd/IMG_1.jpg")) [1; 2; 3] [9; 9]
    eq_refl eq_refl eq_refl eq_refl eq_refl) as Hw.
  cbv zeta in Hw. destruct Hw as (_ & _ & _ & Ho & Hfs). split; [exact Ho|exact Hfs].
Defined.

(** ** ExecutionEngine: progress events *)

Section Progress.
Context `{CharTable}.
Variable sha1_hexdigest : list N → pystr.
Variable ask_conflict : pystr → pystr → answer.
Variable cfg : config.

(** The skip branches and the exception handler report only when due. *)
Lemma do_skip_reports st total src why :
  ui_queue (do_skip st total src why).1 =
    if should_report (S (done st)) total
    then ui_queue st ++ [{| ev_done := S (done st); ev_total := total;
                            ev_msg := why; ev_name := path_name src |}]
    else ui_queue st.
Proof.
  unfold do_skip, report_if_due. cbn [fst done].
  by destruct (should_report _ _).
Qed.

Lemma do_fail_reports st total src e :
  ui_queue (do_fail st total src e).1 =
    if should_report (S (done st)) total
    then ui_queue st ++ [{| ev_done := S (done st); ev_total := total;
                            ev_msg := failure_prefix; ev_name := path_name src |}]
    else ui_queue st.
Proof.
  unfold do_fail, report_if_due. cbn [fst done].
  by destruct (should_report _ _).
Qed.

(** The success branch reports every time. *)
Lemma do_transfer_reports st total src dst st' real_dst :
  do_transfer cfg st total src dst = (st', placed real_dst) →
  ui_queue st' =
    ui_queue st ++ [{| ev_done := S (done st); ev_total := total;
                       ev_msg := processed_file; ev_name := path_name dst |}].
Proof.
  unfold do_transfer.
  destruct ((if action cfg == py "move" then move else copy2) (fs st) src dst)
    as [[fs' rd]|].
  - by intros [= <- _].
  - unfold do_fail. by intros [= _ ?].
Qed.
End Progress.

(** C3: a successful copy is reported although no report is due.  With
    200 files, the eleventh completion is not among the first ten, 11 is
    not a multiple of [max(1, 200 // 100) = 2] and it is not the last, yet
    [process] queues a status event for it. *)
Theorem success_reported_when_not_due :
  let r := @process ascii_table toy_digest always_rename (sample_cfg "rename" false 1)
             200 after_ten (sample_meta (py "/sd/IMG_11.jpg")) in
  should_report 11 200 = false
  ∧ r.2 = placed (sample_dir </> py "IMG_11.jpg")
  ∧ done r.1 = 11%nat
  ∧ ui_queue r.1 = [{| ev_done := 11; ev_total := 200; ev_msg := processed_file;
                       ev_name := py "IMG_11.jpg" |}].
Proof. vm_compute. split_and!; reflexivity. Qed.

(** ** ConflictResolver: rename *)

Lemma py_inj s1 s2 : py s1 = py s2 → s1 = s2.
Proof.
  unfold py. intros Heq.
  rewrite <- (string_of_list_ascii_of_string s1), <- (string_of_list_ascii_of_string s2).
  f_equal. revert Heq.
  generalize (list_ascii_of_string s1) (list_ascii_of_string s2).
  induction l as [|a l IH]; intros [|b k]; simpl; try done.
  intros [= Hab Hlk]. f_equal; [|by apply IH].
  by rewrite <- (ascii_N_embedding a), <- (ascii_N_embedding b), Hab.
Qed.

Lemma str_nat_inj i j : str_nat i = str_nat j → i = j.
Proof. unfold str_nat. intros Heq%py_inj. by apply (inj pretty). Qed.

Lemma candidate_inj dest_dir base ext i j :
  candidate dest_dir base ext i = candidate dest_dir base ext j → i = j.
Proof.
  unfold candidate, pjoin. intros Heq.
  apply app_inv_head in Heq. injection Heq as Heq.
  apply app_inv_head in Heq. injection Heq as Heq.
  apply app_inv_tail in Heq. by apply str_nat_inj.
Qed.

Lemma unique_dest_loop_S (fuel : nat) (fs0 : filesystem) dest_dir base ext cand i :
  unique_dest_loop (S fuel) fs0 dest_dir base ext cand i =
    if path_exists fs0 cand
    then unique_dest_loop fuel fs0 dest_dir base ext
           (candidate dest_dir base ext i) (S i)
    else Some cand.
Proof. reflexivity. Qed.

Lemma unique_dest_loop_free (fuel : nat) (fs0 : filesystem) dest_dir base ext cand i r :
  unique_dest_loop fuel fs0 dest_dir base ext cand i = Some r → fs0 !! r = None.
Proof.
  revert cand i. induction fuel as [|fuel IH]; intros cand i; [done|].
  rewrite unique_dest_loop_S.
  destruct (path_exists fs0 cand) eqn:Hex; [apply IH|].
  intros [= <-]. by apply path_exists_false.
Qed.

(** When the loop runs out of tests, every name it tried exists. *)
Lemma unique_dest_loop_none (fuel : nat) (fs0 : filesystem) dest_dir base ext cand i :
  unique_dest_loop (S fuel) fs0 dest_dir base ext cand i = None →
  ∀ j, (i ≤ j < i + fuel)%nat →
       is_Some (fs0 !! candidate dest_dir base ext j).
Proof.
  revert cand i. induction fuel as [|fuel IH]; intros cand i Hnone j Hj; [lia|].
  rewrite unique_dest_loop_S in Hnone.
  destruct (path_exists fs0 cand) eqn:Hex; [|done].
  destruct (decide (j = i)) as [->|Hne].
  - rewrite unique_dest_loop_S in Hnone.
    destruct (path_exists fs0 (candidate dest_dir base ext i)) eqn:Hex'; [|done].
    by apply path_exists_lookup.
  - apply (IH (candidate dest_dir base ext i) (S i)); [done|lia].
Qed.

(** No filesystem holds more distinct names than it has entries. *)
Lemma candidates_exhaust (fs0 : filesystem) dest_dir base ext i n :
  (∀ j, (i ≤ j < i + n)%nat → is_Some (fs0 !! candidate dest_dir base ext j)) →
  (n ≤ size fs0)%nat.
Proof.
  intros Hall.
  set (l := candidate dest_dir base ext <$> seq i n).
  assert (Hnd : NoDup l).
  { apply NoDup_fmap_2_strong; [|apply NoDup_seq].
    intros x y _ _. apply candidate_inj. }
  assert (Hsub : (list_to_set l : gset pystr) ⊆ dom fs0).
  { intros p [j [-> Hj]]%elem_of_list_to_set%list_elem_of_fmap.
    apply elem_of_seq in Hj. apply elem_of_dom, Hall. lia. }
  apply subseteq_size in Hsub.
  rewrite size_list_to_set, size_dom in Hsub by done.
  unfold l in Hsub. by rewrite length_fmap, length_seq in Hsub.
Qed.

Lemma unique_dest_loop_enough (fuel : nat) (fs0 : filesystem) dest_dir base ext cand i :
  (size fs0 < fuel)%nat →
  is_Some (unique_dest_loop (S fuel) fs0 dest_dir base ext cand i).
Proof.
  intros Hfuel.
  destruct (unique_dest_loop (S fuel) fs0 dest_dir base ext cand i) eqn:Hl; [done|].
  pose proof (unique_dest_loop_none _ _ _ _ _ _ _ Hl) as Hall.
  apply candidates_exhaust in Hall. lia.
Qed.

(** More tests than needed do not change the result. *)
Lemma unique_dest_loop_mono (fuel fuel' : nat) (fs0 : filesystem) dest_dir base ext cand i r :
  unique_dest_loop fuel fs0 dest_dir base ext cand i = Some r →
  (fuel ≤ fuel')%nat →
  unique_dest_loop fuel' fs0 dest_dir base ext cand i = Some r.
Proof.
  revert fuel' cand i. induction fuel as [|fuel IH]; intros fuel' cand i; [done|].
  intros Hl Hle. destruct fuel' as [|fuel']; [lia|].
  rewrite unique_dest_loop_S in Hl |- *.
  destruct (path_exists fs0 cand); [|done]. apply IH; [done|lia].
Qed.

(** [unique_dest] terminates with a path at which nothing exists. *)
Lemma unique_dest_returns (fs0 : filesystem) dest_dir name :
  ∃ cand, unique_dest fs0 dest_dir name = Some cand ∧ fs0 !! cand = None.
Proof.
  unfold unique_dest, unique_dest_fuel. destruct (splitext name) as [base ext].
  destruct (unique_dest_loop_enough (S (size fs0)) fs0 dest_dir base ext
              (dest_dir </> name) 1) as [cand Hc]; [lia|].
  exists cand. split; [done|]. by eapply unique_dest_loop_free.
Qed.

Lemma unique_dest_fuel_irrelevant (fuel : nat) (fs0 : filesystem) dest_dir name :
  (2 + size fs0 ≤ fuel)%nat →
  unique_dest_fuel fuel fs0 dest_dir name = unique_dest fs0 dest_dir name.
Proof.
  intros Hle. destruct (unique_dest_returns fs0 dest_dir name) as (cand & Hc & _).
  rewrite Hc. unfold unique_dest, unique_dest_fuel in *.
  destruct (splitext name) as [base ext]. by eapply unique_dest_loop_mono.
Qed.

(** ** ExecutionEngine: destinations in a sequential run *)

Lemma mkdirs_mono (fs0 fs1 : filesystem) ds b p :
  mkdirs fs0 ds = (fs1, b) → is_Some (fs0 !! p) → fs1 !! p = fs0 !! p.
Proof.
  revert fs0. induction ds as [|d ds IH]; intros fs0; simpl.
  - by intros [= <- _].
  - destruct (fs0 !! d) as [[data r|]|] eqn:Hd.
    + by intros [= <- _].
    + apply IH.
    + intros Hm Hp. assert (d ≠ p) by (intros ->; rewrite Hd in Hp; by destruct Hp).
      rewrite (IH _ Hm); rewrite lookup_insert_ne; done.
Qed.

Lemma mkdir_p_mono (fs0 fs1 : filesystem) d b p :
  mkdir_p fs0 d = (fs1, b) → is_Some (fs0 !! p) → fs1 !! p = fs0 !! p.
Proof.
  unfold mkdir_p. destruct (fs0 !! d) as [[data r|]|].
  - by intros [= <- _].
  - by intros [= <- _].
  - apply mkdirs_mono.
Qed.

Lemma mkdir_p_free (fs0 fs1 : filesystem) d b p :
  mkdir_p fs0 d = (fs1, b) → fs1 !! p = None → fs0 !! p = None.
Proof.
  intros Hm Hp. destruct (fs0 !! p) as [x|] eqn:Hx; [|done].
  rewrite <- Hp. symmetry. rewrite <- Hx. eapply mkdir_p_mono; [done|]. by rewrite Hx.
Qed.

Section Sequential.
Context `{CharTable}.
Variable sha1_hexdigest : list N → pystr.
Variable ask_conflict : pystr → pystr → answer.
Variable cfg : config.

Lemma do_skip_spec st total src why :
  keeps_others src st (do_skip st total src why).1
  ∧ fresh_dest st (do_skip st total src why).1 (do_skip st total src why).2.
Proof.
  split.
  - intros p _. by rewrite fs_do_skip.
  - intros d. simpl. done.
Qed.

Lemma fs_do_fail st total src e : fs (do_fail st total src e).1 = fs st.
Proof.
  unfold do_fail, report_if_due. cbn [fst]. by destruct (should_report _ _).
Qed.

Lemma do_fail_spec st total src e :
  keeps_others src st (do_fail st total src e).1
  ∧ fresh_dest st (do_fail st total src e).1 (do_fail st total src e).2.
Proof.
  split.
  - intros p _. by rewrite fs_do_fail.
  - intros d. simpl. done.
Qed.

Lemma copy2_free (fs0 : filesystem) src dst fs1 real_dst :
  fs0 !! dst = None → copy2 fs0 src dst = Some (fs1, real_dst) →
  real_dst = dst ∧ ∃ data, fs1 = <[dst := File data true]> fs0.
Proof.
  intros Hfree. unfold copy2, is_dir. rewrite Hfree.
  destruct (fs0 !! src) as [[data [|]|]|]; try done.
  destruct (dst == src); [done|]. rewrite Hfree. intros [= <- <-]. eauto.
Qed.

Lemma move_free (fs0 : filesystem) src dst fs1 real_dst :
  fs0 !! dst = None → move fs0 src dst = Some (fs1, real_dst) →
  real_dst = dst ∧ ∃ data r, fs1 = <[dst := File data r]> (delete src fs0).
Proof.
  intros Hfree. unfold move, is_dir. rewrite Hfree.
  destruct (fs0 !! src) as [[data r|]|]; try done.
  intros [= <- <-]. eauto.
Qed.

Lemma do_transfer_spec st total src dst :
  fs st !! dst = None →
  keeps_others src st (do_transfer cfg st total src dst).1
  ∧ (∀ d, (do_transfer cfg st total src dst).2 = placed d →
        d = dst ∧ is_Some (fs (do_transfer cfg st total src dst).1 !! d)).
Proof.
  intros Hfree. unfold do_transfer.
  destruct (action cfg == py "move").
  - destruct (move (fs st) src dst) as [[fs1 rd]|] eqn:Hm.
    + destruct (move_free _ _ _ _ _ Hfree Hm) as (-> & data & r & ->).
      unfold keeps_others. simpl. split.
      * intros p Hp Hs. destruct (decide (p = dst)) as [->|Hne].
        -- rewrite lookup_insert_eq. eauto.
        -- by rewrite lookup_insert_ne, lookup_delete_ne by done.
      * intros d [= <-]. split; [done|]. rewrite lookup_insert_eq. eauto.
    + split; [apply do_fail_spec|]. intros d. simpl. done.
  - destruct (copy2 (fs st) src dst) as [[fs1 rd]|] eqn:Hm.
    + destruct (copy2_free _ _ _ _ _ Hfree Hm) as (-> & data & ->).
      unfold keeps_others. simpl. split.
      * intros p Hp Hs. destruct (decide (p = dst)) as [->|Hne].
        -- rewrite lookup_insert_eq. eauto.
        -- by rewrite lookup_insert_ne by done.
      * intros d [= <-]. split; [done|]. rewrite lookup_insert_eq. eauto.
    + split; [apply do_fail_spec|]. intros d. simpl. done.
Qed.

Lemma do_rename_spec st total src out_dir :
  keeps_others src st (do_rename cfg st total src out_dir).1
  ∧ fresh_dest st (do_rename cfg st total src out_dir).1
      (do_rename cfg st total src out_dir).2.
Proof.
  unfold do_rename.
  destruct (unique_dest_returns (fs st) out_dir (path_name src)) as (cand & -> & Hfree).
  destruct (do_transfer_spec st total src cand Hfree) as [Hk Hd].
  split; [done|]. intros d Ho. destruct (Hd d Ho) as [-> ?]. done.
Qed.

(** The rename branch always ends in a copy, a move or a failure of
    these; it never runs out of names. *)
Lemma do_rename_result st total src out_dir :
  (do_rename cfg st total src out_dir).2 ≠ no_result.
Proof.
  unfold do_rename.
  destruct (unique_dest_returns (fs st) out_dir (path_name src)) as (cand & -> & _).
  unfold do_transfer.
  destruct ((if action cfg == py "move" then move else copy2) (fs st) src cand)
    as [[fs1 rd]|]; done.
Qed.

Lemma process_spec total st m :
  let r := process sha1_hexdigest ask_conflict cfg total st m in
  keeps_others (m_path m) st r.1 ∧ fresh_dest st r.1 r.2.
Proof.
  cbv zeta. unfold process.
  destruct (stop_flag st); [split; [by intros p _|by intros d]|].
  destruct (mkdir_p (fs st) (_target_dir_for cfg m)) as [fs1 [|]] eqn:Hmk.
  - set (st1 := with_fs st fs1).
    assert (Hlift : ∀ r : run_state * outcome,
              keeps_others (m_path m) st1 r.1 ∧ fresh_dest st1 r.1 r.2 →
              keeps_others (m_path m) st r.1 ∧ fresh_dest st r.1 r.2).
    { intros r [Hk Hf]. split.
      - intros p Hp Hs. apply Hk; [done|]. simpl.
        by rewrite (mkdir_p_mono _ _ _ _ _ Hmk Hs).
      - intros d Ho. destruct (Hf d Ho) as [Hfree ?]. split; [|done].
        by eapply mkdir_p_free. }
    destruct (path_exists fs1 _) eqn:Hex.
    + destruct (skip_hash_dup cfg && _); [apply Hlift, do_skip_spec|].
      destruct (policy cfg == py "rename"); [apply Hlift, do_rename_spec|].
      destruct (policy cfg == py "skip"); [apply Hlift, do_skip_spec|].
      destruct (ask_conflict _ _).
      * apply Hlift, do_rename_spec.
      * apply Hlift, do_skip_spec.
      * apply Hlift. split; [|done]. intros p _. done.
    + apply Hlift. apply path_exists_false in Hex.
      destruct (do_transfer_spec st1 total (m_path m) _ Hex) as [Hk Hd].
      split; [done|]. intros d Ho. destruct (Hd d Ho) as [-> ?]. done.
  - pose proof (do_fail_spec (with_fs st fs1) total (m_path m) mkdir_failed) as [Hk Hf].
    split.
    + intros p Hp Hs. apply Hk; [done|]. simpl.
      by rewrite (mkdir_p_mono _ _ _ _ _ Hmk Hs).
    + intros d. simpl. done.
Qed.

(** [process] always comes back with a definite outcome. *)
Lemma process_result total st m :
  (process sha1_hexdigest ask_conflict cfg total st m).2 ≠ no_result.
Proof.
  unfold process.
  destruct (stop_flag st); [done|].
  destruct (mkdir_p (fs st) (_target_dir_for cfg m)) as [fs1 [|]]; [|done].
  destruct (path_exists fs1 _).
  - destruct (skip_hash_dup cfg && _); [done|].
    destruct (policy cfg == py "rename"); [apply do_rename_result|].
    destruct (policy cfg == py "skip"); [done|].
    destruct (ask_conflict _ _); [apply do_rename_result|done|done].
  - unfold do_transfer.
    destruct ((if action cfg == py "move" then move else copy2) _ _ _)
      as [[fs2 rd]|]; done.
Qed.
End Sequential.

Section SequentialRun.
Context `{CharTable}.
Variable sha1_hexdigest : list N → pystr.
Variable ask_conflict : pystr → pystr → answer.
Variable cfg : config.

Lemma placed_dests_cons m o os :
  placed_dests ((m, o) :: os) =
    match o with
    | placed d => d :: placed_dests os
    | _ => placed_dests os
    end.
Proof. by destruct o. Qed.

Lemma run_sequential_distinct_from total metas :
  ∀ st D,
    NoDup (m_path <$> metas) →
    (∀ m, m ∈ metas → is_Some (fs st !! m_path m)) →
    NoDup D →
    (∀ d, d ∈ D → is_Some (fs st !! d)) →
    (∀ d m, d ∈ D → m ∈ metas → d ≠ m_path m) →
    NoDup (D ++ placed_dests
             (run_sequential sha1_hexdigest ask_conflict cfg total st metas).2).
Proof.
  induction metas as [|m rest IH]; intros st D Hnd Hsrc HD Hdom Hdisj.
  { simpl. by rewrite app_nil_r. }
  cbn [run_sequential].
  destruct (stop_flag st); [simpl; by rewrite app_nil_r|].
  pose proof (process_spec sha1_hexdigest ask_conflict cfg total st m) as [Hk Hf].
  destruct (process sha1_hexdigest ask_conflict cfg total st m) as [st1 o].
  cbn [fst snd] in Hk, Hf.
  specialize (IH st1).
  destruct (run_sequential sha1_hexdigest ask_conflict cfg total st1 rest)
    as [st2 os].
  cbn [snd] in *. rewrite placed_dests_cons.
  rewrite fmap_cons in Hnd. apply NoDup_cons in Hnd as [Hm Hrest].
  assert (Hsrc1 : ∀ m', m' ∈ rest → is_Some (fs st1 !! m_path m')).
  { intros m' Hm'. apply Hk; [|apply Hsrc; by right].
    intros Heq. apply Hm. rewrite <- Heq. by apply list_elem_of_fmap_2. }
  assert (Hdom1 : ∀ d, d ∈ D → is_Some (fs st1 !! d)).
  { intros d Hd. apply Hk; [|by apply Hdom]. apply Hdisj; [done|by left]. }
  assert (Hdisj1 : ∀ d m', d ∈ D → m' ∈ rest → d ≠ m_path m').
  { intros d m' Hd Hm'. apply Hdisj; [done|by right]. }
  assert (Hsame : NoDup (D ++ placed_dests os)) by (by apply IH).
  destruct o as [|d| | | |]; try exact Hsame.
  destruct (Hf d eq_refl) as [Hfree Hnow].
  replace (D ++ d :: placed_dests os) with ((D ++ [d]) ++ placed_dests os)
    by (by rewrite <- (assoc_L (++))).
  apply IH; [done|done| | |].
  - apply NoDup_app. split_and!; [done| |apply NoDup_singleton].
    intros x Hx ->%list_elem_of_singleton.
    apply Hdom in Hx. rewrite Hfree in Hx. by destruct Hx.
  - intros x [Hx| ->%list_elem_of_singleton]%elem_of_app; [by apply Hdom1|done].
  - intros x m' [Hx| ->%list_elem_of_singleton]%elem_of_app Hm';
      [by apply Hdisj1|].
    intros ->. assert (Hs : is_Some (fs st !! m_path m')) by (apply Hsrc; by right).
    rewrite Hfree in Hs. by destruct Hs.
Qed.

(** When the files are processed one after the other, no two sources
    are assigned the same destination: a name taken earlier in the run
    exists on disk by the time the next file is looked at. *)
Lemma run_sequential_distinct total st metas :
  NoDup (m_path <$> metas) →
  (∀ m, m ∈ metas → is_Some (fs st !! m_path m)) →
  NoDup (placed_dests
           (run_sequential sha1_hexdigest ask_conflict cfg total st metas).2).
Proof.
  intros Hnd Hsrc.
  apply (run_sequential_distinct_from total metas st []); try done.
  - constructor.
  - by intros d ?%elem_of_nil.
  - by intros d m ?%elem_of_nil.
Qed.
End SequentialRun.

(** Run one after the other, they are placed as [IMG.jpg], [IMG_1.jpg],
    [IMG_2.jpg]. *)
Example run_sequential_three :
  placed_dests
    (@run_sequential ascii_table toy_digest always_rename
       (sample_cfg "rename" false 1) 3 (initial_state fs_three)
       (sample_meta <$> three_sources)).2
  = [sample_dir </> py "IMG.jpg"; sample_dir </> py "IMG_1.jpg";
     sample_dir </> py "IMG_2.jpg"].
Proof. vm_compute. reflexivity. Qed.

(** ** ExecutionEngine: workers *)

Section Workers.
Context `{CharTable}.
Variable sha1_hexdigest : list N → pystr.
Variable ask_conflict : pystr → pystr → answer.
Variable cfg : config.

Abbreviation alone := (run_alone sha1_hexdigest ask_conflict cfg).
Abbreviation step := (worker_step sha1_hexdigest ask_conflict cfg).

Lemma run_alone_finished fuel total st m o :
  alone fuel total st (w_finished m o) = Some (st, o).
Proof. by destruct fuel. Qed.

Lemma run_alone_transfer fuel total st m dst :
  alone (S fuel) total st (w_transfer m dst)
    = Some (do_transfer cfg st total (m_path m) dst).
Proof.
  cbn [run_alone worker_step]. unfold finish.
  rewrite run_alone_finished. by destruct (do_transfer _ _ _ _ _).
Qed.

(** The probing steps of a worker are the iterations of the loop of
    [unique_dest]. *)
Lemma run_alone_probe f k total st m out_dir base ext cand i r :
  unique_dest_loop f (fs st) out_dir base ext cand i = Some r →
  alone (f + S k) total st (w_probe m out_dir base ext cand i)
    = Some (do_transfer cfg st total (m_path m) r).
Proof.
  revert cand i. induction f as [|f IH]; intros cand i; [done|].
  rewrite unique_dest_loop_S.
  change (S f + S k)%nat with (S (f + S k)).
  cbn [run_alone worker_step].
  destruct (path_exists (fs st) cand).
  - apply IH.
  - intros [= <-]. rewrite Nat.add_succ_r. apply run_alone_transfer.
Qed.

Lemma run_alone_rename total st m out_dir k :
  alone (2 + size (fs st) + S k) total
      (start_rename st m out_dir).1 (start_rename st m out_dir).2
    = Some (do_rename cfg st total (m_path m) out_dir).
Proof.
  unfold start_rename, do_rename.
  destruct (unique_dest_returns (fs st) out_dir (path_name (m_path m)))
    as (cand & Hc & _).
  rewrite Hc. unfold unique_dest, unique_dest_fuel in Hc.
  destruct (splitext (path_name (m_path m))) as [base ext]. cbn [fst snd].
  by apply run_alone_probe.
Qed.

(** A worker that is not interrupted performs exactly [process]. *)
Lemma run_alone_process total st m :
  alone (4 + size (mkdir_p (fs st) (_target_dir_for cfg m)).1) total st
      (w_ready m)
    = Some (process sha1_hexdigest ask_conflict cfg total st m).
Proof.
  unfold process.
  destruct (stop_flag st) eqn:Hstop.
  { cbn [run_alone Nat.add worker_step]. by rewrite Hstop. }
  destruct (mkdir_p (fs st) (_target_dir_for cfg m)) as [fs1 ok] eqn:Hmk.
  cbn [fst]. replace (4 + size fs1)%nat with (S (2 + size fs1 + 1)) by lia.
  cbn [run_alone worker_step]. rewrite Hstop, Hmk.
  assert (Hfin : ∀ (r : run_state * outcome) n,
            (let '(st', w') := finish m r in alone n total st' w') = Some r).
  { intros [st' o] n. unfold finish. cbn [fst snd]. apply run_alone_finished. }
  assert (Hren : ∀ st1, fs st1 = fs1 →
            (let '(st', w') := start_rename st1 m (_target_dir_for cfg m) in
             alone (2 + size fs1 + 1) total st' w')
            = Some (do_rename cfg st1 total (m_path m) (_target_dir_for cfg m))).
  { intros st1 Hfs. rewrite <- Hfs.
    rewrite <- (run_alone_rename total st1 m (_target_dir_for cfg m) 0).
    by destruct (start_rename st1 m (_target_dir_for cfg m)). }
  destruct ok; [|apply Hfin].
  destruct (path_exists fs1 _).
  - destruct (skip_hash_dup cfg && _); [apply Hfin|].
    destruct (policy cfg == py "rename"); [by apply Hren|].
    destruct (policy cfg == py "skip"); [apply Hfin|].
    destruct (ask_conflict _ _); [by apply Hren|apply Hfin|].
    apply run_alone_finished.
  - rewrite Nat.add_1_r. apply run_alone_transfer.
Qed.
End Workers.

(** C2: with the policy "rename" and two workers, both workers can find
    [IMG_1.jpg] free before either has written it; both are then assigned
    [IMG_1.jpg], both copies count as successes and the second overwrites
    the first. *)
Theorem rename_race_same_destination :
  let cfg := sample_cfg "rename" false 2 in
  let r := @run_schedule ascii_table toy_digest always_rename cfg 2
             (initial_state fs_race) race_workers race_schedule in
  runs_parallel cfg = true
  ∧ worker_dest <$> r.2 =
      [Some (py "/sd/a/IMG.jpg", sample_dir </> py "IMG_1.jpg");
       Some (py "/sd/b/IMG.jpg", sample_dir </> py "IMG_1.jpg")]
  ∧ success r.1 = 2%nat
  ∧ fs r.1 !! (sample_dir </> py "IMG_1.jpg") = Some (File [2] true)
  ∧ fs r.1 !! (sample_dir </> py "IMG_2.jpg") = None.
Proof. vm_compute. split_and!; reflexivity. Qed.

(** The same two files processed one after the other get [IMG_1.jpg] and
    [IMG_2.jpg]. *)
Example rename_sequential_two :
  placed_dests
    (@run_sequential ascii_table toy_digest always_rename
       (sample_cfg "rename" false 1) 2 (initial_state fs_race)
       (sample_meta <$> [py "/sd/a/IMG.jpg"; py "/sd/b/IMG.jpg"])).2
  = [sample_dir </> py "IMG_1.jpg"; sample_dir </> py "IMG_2.jpg"].
Proof. vm_compute. reflexivity. Qed.

(** * Further properties of the code *)

(** ** [sanitize] *)

Lemma lstrip_head s :
  lstrip s = [] ∨ ∃ c r, lstrip s = c :: r ∧ isspace c = false.
Proof.
  induction s as [|c s IH]; [by left|]. simpl.
  destruct (isspace c) eqn:Hc; [done|]. right. eauto.
Qed.

Lemma rstrip_head c s :
  isspace c = false → ∃ r, rstrip (c :: s) = c :: r.
Proof.
  intros Hc. rewrite rstrip_cons, Hc. destruct (rstrip s); eauto.
Qed.

Lemma lstrip_id_head c s : isspace c = false → lstrip (c :: s) = c :: s.
Proof. intros Hc. simpl. by rewrite Hc. Qed.

(** Stripping twice is stripping once. *)
Lemma strip_strip s : strip (strip s) = strip s.
Proof.
  unfold strip. destruct (lstrip_head s) as [->|(c & r & -> & Hc)]; [done|].
  destruct (rstrip_head c r Hc) as [r' Hr]. rewrite Hr.
  rewrite lstrip_id_head by done. rewrite <- Hr.
  apply rstrip_id. intros x. apply rstrip_last.
Qed.

Section SanitizeMore.
Context `{CharTable}.

Lemma collapsed_strip name : collapsed (strip name) = collapsed name.
Proof. unfold collapsed. by rewrite strip_strip. Qed.

Lemma collapsed_nil_of_strip name : strip name = [] → collapsed name = [].
Proof. unfold collapsed. by intros ->. Qed.

Lemma length_truncated s : (length (truncated s) ≤ 120)%nat.
Proof.
  unfold truncated. destruct (120 <? length s)%nat eqn:Hl.
  - destruct (take 120 s) as [|c r] eqn:Ht; [simpl; lia|].
    rewrite <- Ht, length_take. lia.
  - apply Nat.ltb_ge in Hl. destruct s; [simpl; lia|done].
Qed.

Lemma truncated_head s c r :
  truncated s = c :: r → (s = [] ∧ c :: r = UNKNOWN) ∨ ∃ r', s = c :: r'.
Proof.
  unfold truncated. destruct s as [|x s]; [destruct (_ <? _)%nat; by left|].
  destruct (120 <? length (x :: s))%nat; simpl; intros [= <- _]; right; eauto.
Qed.

Lemma collapsed_head name c r :
  collapsed name = c :: r → isspace c = false.
Proof.
  destruct (collapsed_words name) as (ws & Hws & ->).
  destruct ws as [|w ws]; [done|]. inversion Hws as [|? ? Hw _]; subst.
  destruct (join_head_word w ws Hw) as (c' & r' & -> & Hc). by intros [= <- _].
Qed.

Lemma safe_char_space_only c : safe_char c = true → isspace c = true → c = SPACE.
Proof.
  unfold safe_char. intros [Hc|Hc]%orb_prop Hs.
  - apply isalnum_not_space in Hc. congruence.
  - unfold in_str, SAFE_PUNCT in Hc. simpl in Hc.
    repeat (apply orb_prop in Hc as [Hc|Hc];
            [apply N.eqb_eq in Hc; subst c; first [done|discriminate Hs]|]).
    done.
Qed.
End SanitizeMore.

(** X1: the result of [sanitize] is never empty, is at most 120 characters
    long, consists of alphanumeric characters and the punctuation
    [" ._-()+[]#/"] only, and does not begin with whitespace. *)
Theorem sanitize_shape `{CharTable} (name : pystr) :
  sanitize name ≠ []
  ∧ (length (sanitize name) ≤ 120)%nat
  ∧ (∀ c, c ∈ sanitize name → isalnum c = true ∨ c ∈ SAFE_PUNCT)
  ∧ (∀ c, head (sanitize name) = Some c → isspace c = false).
Proof.
  split_and!.
  - apply sanitize_nonempty.
  - destruct name as [|x name]; [simpl; lia|].
    rewrite sanitize_unfold by done. apply length_truncated.
  - intros c Hc%sanitize_safe. unfold safe_char in Hc.
    apply orb_prop in Hc as [Hc|Hc]; [by left|right].
    unfold in_str in Hc. apply existsb_exists in Hc as (y & Hy & ->%N.eqb_eq).
    by apply list_elem_of_In.
  - intros c. destruct name as [|x name]; [by intros [= <-]|].
    rewrite sanitize_unfold by done.
    destruct (truncated (collapsed (x :: name))) as [|c' r] eqn:Ht; [done|].
    intros [= ->]. apply truncated_head in Ht as [[_ [= -> _]]|[r' Hr]]; [done|].
    by eapply collapsed_head.
Qed.

(** X2: no backslash, no control character and no whitespace other than
    the plain space occurs in the result of [sanitize]. *)
Theorem sanitize_excludes `{CharTable} (name : pystr) (c : codepoint) :
  c ∈ sanitize name →
  c ≠ BACKSLASH ∧ is_control c = false ∧ (isspace c = true → c = SPACE).
Proof.
  intros Hc. destruct (sanitize_no_backslash_no_control name c Hc) as [? ?].
  split_and!; [done|done|]. apply safe_char_space_only. by eapply sanitize_safe.
Qed.

Lemma sanitize_excludes_witness :
  32 ≠ BACKSLASH ∧ is_control 32 = false ∧ (isspace 32 = true → 32 = SPACE).
Proof.
  apply (@sanitize_excludes ascii_table (py "EOS R5 [a\b]") 32).
  vm_compute. apply list_elem_of_In. simpl. tauto.
Defined.

(** X3: [sanitize] applied twice gives the same as applied once exactly
    when the collapsed name fits into 120 characters or its 120th
    character is not a space. *)
Theorem sanitize_idempotent_iff `{CharTable} (name : pystr) :
  sanitize (sanitize name) = sanitize name
  ↔ ((length (collapsed name) ≤ 120)%nat ∨ collapsed name !! 119%nat ≠ Some SPACE).
Proof.
  split; [|apply sanitize_idempotent_if].
  intros Heq.
  destruct (decide (length (collapsed name) ≤ 120)%nat) as [?|Hlen]; [by left|].
  right. intros Hsp. by apply (sanitize_idempotent_only_if name); [lia|..].
Qed.

(** X4: a name that is already in sanitized form is returned unchanged:
    non-empty words of safe, non-whitespace characters, separated by single
    spaces, at most 120 characters in all. *)
Theorem sanitize_fixes_clean_names `{CharTable} (ws : list pystr) :
  Forall clean_word ws → ws ≠ [] → (length (join [SPACE] ws) ≤ 120)%nat →
  sanitize (join [SPACE] ws) = join [SPACE] ws.
Proof.
  intros Hws Hne Hlen. rewrite sanitize_join by done.
  apply truncated_small; [|done].
  destruct ws as [|w ws]; [done|]. inversion Hws as [|? ? Hw _]; subst.
  destruct (join_head_word w ws Hw) as (c & r & -> & _). done.
Qed.

Lemma sanitize_fixes_clean_names_witness :
  @sanitize ascii_table (py "EOS R5") = py "EOS R5".
Proof.
  apply (@sanitize_fixes_clean_names ascii_table [py "EOS"; py "R5"]).
  - repeat constructor; done.
  - done.
  - vm_compute. lia.
Defined.

(** X5: whitespace around the name does not matter:
    [sanitize(name.strip()) = sanitize(name)]. *)
Theorem sanitize_ignores_outer_whitespace `{CharTable} (name : pystr) :
  sanitize (strip name) = sanitize name.
Proof.
  destruct name as [|x name]; [done|].
  rewrite (sanitize_unfold (x :: name)) by done.
  destruct (strip (x :: name)) as [|y s] eqn:Hs.
  - by rewrite collapsed_nil_of_strip.
  - rewrite <- Hs, sanitize_unfold by (by rewrite Hs). by rewrite collapsed_strip.
Qed.

(** ** The metadata readers *)

Lemma or_none_not_empty s : or_none s ≠ Some [].
Proof. by destruct s. Qed.

Lemma json_or_none_true v :
  json_or_none v ≠ Some (J_str [])
  ∧ json_true (json_or_none v) = bool_decide (is_Some (json_or_none v)).
Proof. by destruct v as [[|??]|[|] ?]. Qed.

(** X6: none of the three readers ever returns an empty string for the
    camera or the lens: a value is either absent or counts as true, so
    the truth tests of [extract_meta] are tests for presence. *)
Theorem readers_return_no_empty_string (E : MetaSource) (path : pystr) :
  (∀ r, r ∈ [exif_from_pillow E path; exif_from_exifread E path] →
        r.1.2 ≠ Some [] ∧ r.2 ≠ Some []
        ∧ truthy r.1.2 = bool_decide (is_Some r.1.2)
        ∧ truthy r.2 = bool_decide (is_Some r.2))
  ∧ (∀ r, r = exif_from_exiftool E path →
        r.1.2 ≠ Some (J_str []) ∧ r.2 ≠ Some (J_str [])
        ∧ json_true r.1.2 = bool_decide (is_Some r.1.2)
        ∧ json_true r.2 = bool_decide (is_Some r.2)).
Proof.
  assert (Hor : ∀ s, truthy (or_none s) = bool_decide (is_Some (or_none s))).
  { by intros [|??]. }
  assert (Hno : NO_EXIF.1.2 ≠ Some [] ∧ NO_EXIF.2 ≠ Some []
                ∧ truthy NO_EXIF.1.2 = bool_decide (is_Some NO_EXIF.1.2)
                ∧ truthy NO_EXIF.2 = bool_decide (is_Some NO_EXIF.2)) by done.
  split; intros r Hr.
  - repeat (apply elem_of_cons in Hr as [->|Hr]); [| |by apply elem_of_nil in Hr].
    + unfold exif_from_pillow. destruct (negb (PIL_OK E)); [done|].
      destruct (pil_getexif E path) as [exif|]; [|done].
      destruct (bool_decide (exif = ∅)); [done|].
      cbn [fst snd]. split_and!; auto using or_none_not_empty.
    + unfold exif_from_exifread. destruct (negb (EXIFREAD_OK E)); [done|].
      destruct (exifread_process_file E path) as [tags|]; [|done].
      cbn [fst snd]. split_and!; auto using or_none_not_empty.
  - subst r. unfold exif_from_exiftool.
    destruct (which_exiftool E) as [exe|]; [|done].
    destruct (exiftool_json E exe path) as [data|]; [|done].
    destruct (if json_truthy _ && json_truthy _ then _ else _) as [b|]; [|done].
    cbn [fst snd]. split_and!; apply json_or_none_true.
Qed.

Lemma readers_return_no_empty_string_witness :
  (exif_from_exiftool dated_source (py "a.jpg")).1.2 ≠ Some (J_str [])
  ∧ (exif_from_pillow dated_source (py "a.jpg")).1.2 ≠ Some [].
Proof.
  split.
  - by apply (readers_return_no_empty_string dated_source (py "a.jpg")).
  - apply (readers_return_no_empty_string dated_source (py "a.jpg")). left.
Defined.

(** X7: Pillow takes the capture date from DateTimeOriginal (tag 36867)
    when that tag parses, and from DateTime (tag 306) otherwise. *)
Theorem pillow_date_precedence (E : MetaSource) (path : pystr)
    (exif : gmap N pystr) :
  PIL_OK E = true → pil_getexif E path = Some exif →
  (exif_from_pillow E path).1.1 =
    match exif !! 36867 ≫= parse_dt_str E with
    | Some d => Some d
    | None => exif !! 306 ≫= parse_dt_str E
    end.
Proof.
  intros Hok Hexif. unfold exif_from_pillow. rewrite Hok, Hexif. cbn [negb].
  case_bool_decide as He.
  - subst exif. by rewrite !lookup_empty.
  - cbn [fst find_date].
    destruct (exif !! 36867) as [v|]; cbn [mbind option_bind].
    + destruct (parse_dt_str E v); [done|].
      destruct (exif !! 306) as [v2|]; cbn [mbind option_bind]; [|done].
      by destruct (parse_dt_str E v2).
    + destruct (exif !! 306) as [v2|]; cbn [mbind option_bind]; [|done].
      by destruct (parse_dt_str E v2).
Qed.

Lemma pillow_date_precedence_witness :
  dt_year <$> (exif_from_pillow dated_source (py "a.jpg")).1.1
  = Some 2024.
Proof.
  rewrite (pillow_date_precedence dated_source (py "a.jpg") _
             eq_refl eq_refl).
  reflexivity.
Defined.

(** X8: exifread takes the camera from the first of the tags "Image
    Model" and "EXIF Model" that is present, stripped; a blank "Image
    Model" therefore hides a usable "EXIF Model". *)
Theorem exifread_camera_first_present (E : MetaSource) (path : pystr)
    (tags : gmap pystr pystr) :
  EXIFREAD_OK E = true → exifread_process_file E path = Some tags →
  (exif_from_exifread E path).1.2 =
    match tags !! py "Image Model" with
    | Some v => or_none (strip v)
    | None => tags !! py "EXIF Model" ≫= (λ v, or_none (strip v))
    end.
Proof.
  intros Hok Htags. unfold exif_from_exifread. rewrite Hok, Htags.
  cbn [negb fst snd first_tag].
  destruct (tags !! py "Image Model") as [v|]; [done|].
  by destruct (tags !! py "EXIF Model") as [v|].
Qed.

Lemma exifread_camera_first_present_witness :
  (exif_from_exifread dated_source (py "a.jpg")).1.2 = None.
Proof.
  rewrite (exifread_camera_first_present dated_source (py "a.jpg") _
             eq_refl eq_refl).
  reflexivity.
Defined.

Lemma is_prefix_app a b : is_prefix a (a ++ b) = true.
Proof. induction a as [|x a IH]; [done|]. simpl. by rewrite N.eqb_refl. Qed.

Lemma contains_prefix a s : is_prefix a s = true → contains a s = true.
Proof. intros Hp. destruct s; simpl in *; by rewrite Hp. Qed.

(** X9: when exiftool reports a make and a model, both strings, the
    camera it returns mentions the make: it is the model if that contains
    the make, and make, space, model otherwise. *)
Theorem exiftool_camera_mentions_make (E : MetaSource)
    (path exe make model : pystr) (data : gmap pystr json) :
  which_exiftool E = Some exe → exiftool_json E exe path = Some data →
  data !! py "Make" = Some (J_str make) →
  data !! py "Model" = Some (J_str model) →
  make ≠ [] → model ≠ [] →
  ∃ cam, (exif_from_exiftool E path).1.2 = Some (J_str cam)
         ∧ contains make cam = true
         ∧ cam = (if contains make model then model else make ++ SPACE :: model).
Proof.
  intros Hexe Hdata Hmake Hmodel Hm1 Hm2.
  unfold exif_from_exiftool. rewrite Hexe, Hdata, Hmake, Hmodel.
  destruct make as [|m0 make]; [done|]. destruct model as [|c0 model]; [done|].
  cbn [get_or json_truthy andb not_in json_str].
  destruct (contains (m0 :: make) (c0 :: model)) eqn:Hc; cbn [negb fst snd json_or_none json_truthy].
  - exists (c0 :: model). done.
  - exists ((m0 :: make) ++ SPACE :: c0 :: model). split_and!; [done| |done].
    apply contains_prefix, is_prefix_app.
Qed.

Lemma exiftool_camera_mentions_make_witness :
  ∃ cam, (exif_from_exiftool dated_source (py "a.jpg")).1.2 = Some (J_str cam)
         ∧ contains (py "Canon") cam = true
         ∧ cam = py "Canon EOS R5".
Proof.
  destruct (exiftool_camera_mentions_make dated_source (py "a.jpg")
              (py "exiftool") (py "Canon") (py "EOS R5") _
              eq_refl eq_refl eq_refl eq_refl ltac:(discriminate) ltac:(discriminate))
    as (cam & H1 & H2 & H3).
  exists cam. split_and!; [exact H1|exact H2|]. rewrite H3. reflexivity.
Defined.

(** ** [walk_images] and the file kind *)

Lemma extract_meta_kind `{CharTable} (E : MetaSource) (path : pystr) (r : meta) :
  extract_meta E path = Some r →
  m_kind r =
    let ext := lower (path_suffix path) in
    if in_set ext RAW_EXT then py "raw"
    else if in_set ext PROC_EXT then py "jpg"
    else py "other".
Proof.
  unfold extract_meta.
  destruct (exif_from_pillow E path) as [[d1 c1] l1].
  destruct (exif_from_exifread E path) as [[d2 c2] l2].
  destruct (exif_from_exiftool E path) as [[d3 c3] l3].
  destruct (sanitize_value _) as [cam|]; [|done].
  destruct (sanitize_value _) as [lens|]; [|done].
  by intros [= <-].
Qed.

(** X10: [walk_images] yields only paths of the listing, and every file
    it yields is classified "raw" or "jpg" in the record [extract_meta]
    returns for it, never "other": each accepted suffix is in one of the
    two tables. *)
Theorem walked_images_have_a_kind `{CharTable} (E : MetaSource)
    (listing : list pystr) (p : pystr) :
  p ∈ walk_images listing →
  p ∈ listing
  ∧ ∀ r, extract_meta E p = Some r →
         m_kind r = py "raw" ∨ m_kind r = py "jpg".
Proof.
  unfold walk_images. intros [Hin Hext]%list_elem_of_In%filter_In.
  split; [by apply list_elem_of_In|].
  intros r Hr. rewrite (extract_meta_kind E p r Hr). cbv zeta.
  unfold in_set in Hext. apply bool_decide_eq_true in Hext.
  set (ext := lower (path_suffix p)) in *. clearbody ext.
  unfold IMAGE_EXT in Hext.
  repeat (apply elem_of_cons in Hext as [->|Hext]; [vm_compute; tauto|]).
  by apply elem_of_nil in Hext.
Qed.

Lemma walked_images_have_a_kind_witness :
  ∃ r, @extract_meta ascii_table nothing_readable (py "/sd/DCIM/P1.ORF") = Some r
       ∧ (m_kind r = py "raw" ∨ m_kind r = py "jpg").
Proof.
  eexists. split; [vm_compute; reflexivity|].
  eapply (@walked_images_have_a_kind ascii_table nothing_readable
            [py "/sd/DCIM/notes.txt"; py "/sd/DCIM/P1.ORF"] (py "/sd/DCIM/P1.ORF")).
  - vm_compute. apply list_elem_of_In. simpl. tauto.
  - vm_compute; reflexivity.
Defined.

(** ** [scan_preview]: plan, conflicts and counts *)

(** X11: a bucket of the plan lists, in scan order, exactly the files
    whose destination directory is the bucket's key; a directory that no
    file maps to has no bucket, so no bucket is empty. *)
Theorem build_plan_bucket `{CharTable} (cfg : config) (metas : list meta) (d : pystr) :
  build_plan cfg metas !! d =
    match m_path <$> filter (λ m, _target_dir_for cfg m = d) metas with
    | [] => None
    | l => Some l
    end.
Proof.
  induction metas as [|m metas IH] using rev_ind.
  { unfold build_plan. simpl. by rewrite lookup_empty. }
  rewrite build_plan_snoc, setdefault_append_lookup, filter_app, fmap_app.
  destruct (decide (_target_dir_for cfg m = d)) as [Hd|Hd].
  - rewrite Hd, IH. rewrite filter_cons_True by done. rewrite filter_nil.
    destruct (m_path <$> filter (λ m0, _target_dir_for cfg m0 = d) metas)
      as [|x l]; reflexivity.
  - rewrite IH. rewrite filter_cons_False by done. rewrite filter_nil.
    by rewrite app_nil_r.
Qed.

Lemma elem_of_concat {A} (x : A) (ls : list (list A)) :
  x ∈ concat ls ↔ ∃ l, x ∈ l ∧ l ∈ ls.
Proof.
  rewrite list_elem_of_In, in_concat. split.
  - intros (l & Hl & Hx). exists l. by rewrite !list_elem_of_In.
  - intros (l & Hx & Hl). exists l. by rewrite <- !list_elem_of_In.
Qed.

(** X12: the pre-flight duplicate scan reports the pair (source,
    destination) exactly for the scanned files whose destination, the
    target directory joined with the file's own name, already exists. *)
Theorem scan_conflicts_exact `{CharTable} (cfg : config) (fs0 : filesystem)
    (metas : list meta) (src dst : pystr) :
  (src, dst) ∈ scan_conflicts fs0 (build_plan cfg metas)
  ↔ ∃ m, m ∈ metas ∧ src = m_path m
         ∧ dst = _target_dir_for cfg m </> path_name src
         ∧ path_exists fs0 dst = true.
Proof.
  unfold scan_conflicts. rewrite elem_of_concat. split.
  - intros (cs & Hin & [[d l] [-> Hb]]%list_elem_of_fmap).
    apply elem_of_map_to_list in Hb. unfold bucket_conflicts in Hin. cbn [fst snd] in Hin.
    apply list_elem_of_omap in Hin as (s & Hs & Hf).
    destruct (path_exists fs0 (d </> path_name s)) eqn:Hex; [|done].
    injection Hf as <- <-.
    destruct (build_plan_sound cfg metas d l s Hb Hs) as (m & Hm & <- & <-).
    exists m. done.
  - intros (m & Hm & -> & -> & Hex).
    destruct (build_plan_complete cfg metas m Hm) as (l & Hl & Hp).
    exists (bucket_conflicts fs0 (_target_dir_for cfg m) l). split.
    + unfold bucket_conflicts. apply list_elem_of_omap.
      exists (m_path m). split; [done|]. by rewrite Hex.
    + apply list_elem_of_fmap. exists (_target_dir_for cfg m, l).
      split; [done|]. by apply elem_of_map_to_list.
Qed.

(** X13: the count shown for a camera (or lens) is the number of scanned
    records with that camera (or lens); a name that no record has is not
    listed. *)
Theorem count_by_counts (key : meta → pystr) (metas : list meta) (k : pystr) :
  count_by key metas !! k =
    match length (filter (λ m, key m = k) metas) with
    | O => None
    | n => Some n
    end.
Proof.
  induction metas as [|m metas IH] using rev_ind.
  { unfold count_by. simpl. by rewrite lookup_empty. }
  unfold count_by in *. rewrite foldl_snoc, lookup_insert, filter_app, length_app.
  destruct (decide (key m = k)) as [Hk|Hk].
  - rewrite Hk, IH. rewrite filter_cons_True by done. rewrite filter_nil.
    destruct (length (filter (λ m0, key m0 = k) metas)); simpl; f_equal; lia.
  - rewrite IH. rewrite filter_cons_False by done. rewrite filter_nil.
    simpl. by rewrite Nat.add_0_r.
Qed.

(** ** [unique_dest] *)

Lemma unique_dest_loop_first (fuel : nat) (fs0 : filesystem) dest_dir base ext cand i r :
  unique_dest_loop fuel fs0 dest_dir base ext cand i = Some r →
  r = cand
  ∨ (is_Some (fs0 !! cand)
     ∧ ∃ k, (i ≤ k)%nat ∧ r = candidate dest_dir base ext k
            ∧ ∀ j, (i ≤ j < k)%nat → is_Some (fs0 !! candidate dest_dir base ext j)).
Proof.
  revert cand i. induction fuel as [|fuel IH]; intros cand i; [done|].
  rewrite unique_dest_loop_S.
  destruct (path_exists fs0 cand) eqn:Hex; [|intros [= <-]; by left].
  intros Hl. right. split; [by apply path_exists_lookup|].
  destruct (IH _ _ Hl) as [->|(Hc & k & Hk & -> & Hall)].
  - exists i. split_and!; [lia|done|]. intros j Hj. lia.
  - exists k. split_and!; [lia|done|]. intros j Hj.
    destruct (decide (j = i)) as [->|Hne]; [done|]. apply Hall. lia.
Qed.

Lemma unique_dest_first_free_aux (fs0 : filesystem) (dest_dir name : pystr) :
  ∃ r, unique_dest fs0 dest_dir name = Some r
       ∧ (r = dest_dir </> name
          ∨ ∃ k, (1 ≤ k)%nat
                 ∧ r = candidate dest_dir (splitext name).1 (splitext name).2 k).
Proof.
  destruct (unique_dest_returns fs0 dest_dir name) as (r & Hr & Hfree).
  exists r. split; [done|].
  unfold unique_dest, unique_dest_fuel in Hr.
  destruct (splitext name) as [base ext]. cbn [fst snd].
  apply unique_dest_loop_first in Hr as [->|(_ & k & ? & -> & _)]; [by left|].
  right. eauto.
Qed.

(** X14: [unique_dest] always returns, and what it returns is the first
    free name of the sequence [name], [base_1.ext], [base_2.ext], ...:
    nothing exists at the returned path and every earlier name of the
    sequence exists. *)
Theorem unique_dest_first_free (fs0 : filesystem) (dest_dir name : pystr) :
  ∃ r, unique_dest fs0 dest_dir name = Some r
       ∧ fs0 !! r = None
       ∧ (r = dest_dir </> name
          ∨ (is_Some (fs0 !! (dest_dir </> name))
             ∧ ∃ k, (1 ≤ k)%nat
                    ∧ r = candidate dest_dir (splitext name).1 (splitext name).2 k
                    ∧ ∀ j, (1 ≤ j < k)%nat →
                           is_Some (fs0 !! candidate dest_dir (splitext name).1
                                                     (splitext name).2 j))).
Proof.
  destruct (unique_dest_returns fs0 dest_dir name) as (r & Hr & Hfree).
  exists r. split_and!; [done|done|].
  unfold unique_dest, unique_dest_fuel in Hr.
  destruct (splitext name) as [base ext]. cbn [fst snd].
  by apply unique_dest_loop_first in Hr.
Qed.

(** ** Directory creation *)

Lemma dir_prefixes_self p : p ≠ [] → p ∈ dir_prefixes p.
Proof.
  induction p as [|c p IH]; [done|]. intros _. simpl.
  destruct p as [|c' p']; [by left|].
  assert (Hin : c :: c' :: p' ∈ cons c <$> dir_prefixes (c' :: p')).
  { apply list_elem_of_fmap_2. by apply IH. }
  destruct (c' =? SLASH); [by right|done].
Qed.

Lemma mkdirs_ok (fs0 fs1 : filesystem) ds q :
  mkdirs fs0 ds = (fs1, true) → q ∈ ds → fs1 !! q = Some Dir.
Proof.
  revert fs0. induction ds as [|d ds IH]; intros fs0 Hm Hq; [by apply elem_of_nil in Hq|].
  simpl in Hm. apply elem_of_cons in Hq as [->|Hq].
  - destruct (fs0 !! d) as [[data r|]|] eqn:Hd; [done| |].
    + rewrite (mkdirs_mono _ _ _ _ d Hm); [done|by rewrite Hd].
    + rewrite (mkdirs_mono _ _ _ _ d Hm); [by rewrite lookup_insert_eq|].
      by rewrite lookup_insert_eq.
  - destruct (fs0 !! d) as [[data r|]|]; [done|by eapply IH|by eapply IH].
Qed.

(** X15: when [mkdir(parents=True, exist_ok=True)] succeeds the path is a
    directory afterwards, everything that existed before is unchanged,
    and creating the directory again changes nothing. *)
Theorem mkdir_p_creates_once (fs0 fs1 : filesystem) (d : pystr) :
  d ≠ [] → mkdir_p fs0 d = (fs1, true) →
  is_dir fs1 d = true
  ∧ (∀ p x, fs0 !! p = Some x → fs1 !! p = Some x)
  ∧ mkdir_p fs1 d = (fs1, true).
Proof.
  intros Hne Hm.
  assert (Hdir : fs1 !! d = Some Dir).
  { unfold mkdir_p in Hm. destruct (fs0 !! d) as [[data r|]|] eqn:Hd.
    - done.
    - by injection Hm as <-.
    - eapply mkdirs_ok; [done|]. by apply dir_prefixes_self. }
  split_and!.
  - by apply is_dir_lookup.
  - intros p x Hp. rewrite (mkdir_p_mono _ _ _ _ p Hm); [done|by rewrite Hp].
  - apply mkdir_p_existing. by apply is_dir_lookup.
Qed.

Lemma mkdir_p_creates_once_witness :
  is_dir (mkdir_p fs_three sample_dir).1 sample_dir = true.
Proof.
  apply (mkdir_p_creates_once fs_three (mkdir_p fs_three sample_dir).1 sample_dir).
  - discriminate.
  - rewrite (surjective_pairing (mkdir_p fs_three sample_dir)) at 1.
    f_equal; try (vm_compute; reflexivity).
Defined.

(** ** [process]: the shape of a call *)

Section ProcessFacts.
Context `{CharTable}.
Variable sha1_hexdigest : list N → pystr.
Variable ask_conflict : pystr → pystr → answer.
Variable cfg : config.

Lemma do_rename_transfer st total src out_dir :
  ∃ cand, fs st !! cand = None
          ∧ do_rename cfg st total src out_dir = do_transfer cfg st total src cand.
Proof.
  unfold do_rename.
  destruct (unique_dest_returns (fs st) out_dir (path_name src)) as (cand & -> & Hfree).
  by exists cand.
Qed.

(** A call of [process] does nothing, or creates the directory and then
    skips, fails, cancels, or transfers the file to a free path. *)
Lemma process_shape total st m :
  let r := process sha1_hexdigest ask_conflict cfg total st m in
  (stop_flag st = true ∧ r = (st, not_run))
  ∨ (stop_flag st = false
     ∧ ∃ fs1 ok, mkdir_p (fs st) (_target_dir_for cfg m) = (fs1, ok)
         ∧ ((∃ why, r = do_skip (with_fs st fs1) total (m_path m) why)
            ∨ (∃ e, r = do_fail (with_fs st fs1) total (m_path m) e)
            ∨ r = (set_stop (with_fs st fs1), cancel_all)
            ∨ (∃ dst, fs1 !! dst = None
                 ∧ r = do_transfer cfg (with_fs st fs1) total (m_path m) dst))).
Proof.
  cbv zeta. unfold process.
  destruct (stop_flag st) eqn:Hstop; [by left|]. right. split; [done|].
  destruct (mkdir_p (fs st) (_target_dir_for cfg m)) as [fs1 ok] eqn:Hmk.
  exists fs1, ok. split; [done|].
  assert (Hren : ∃ dst, fs1 !! dst = None
            ∧ do_rename cfg (with_fs st fs1) total (m_path m) (_target_dir_for cfg m)
              = do_transfer cfg (with_fs st fs1) total (m_path m) dst).
  { apply (do_rename_transfer (with_fs st fs1)). }
  destruct ok; [|right; left; eauto].
  destruct (path_exists fs1 _) eqn:Hex.
  - destruct (skip_hash_dup cfg && _); [left; eauto|].
    destruct (policy cfg == py "rename").
    { destruct Hren as (dst & ? & ->). do 3 right. eauto. }
    destruct (policy cfg == py "skip"); [left; eauto|].
    destruct (ask_conflict _ _).
    + destruct Hren as (dst & ? & ->). do 3 right. eauto.
    + left; eauto.
    + right; right; left. done.
  - apply path_exists_false in Hex. do 3 right. eauto.
Qed.

(** *** The filesystem *)

Lemma mkdirs_adds_dirs (fs0 fs1 : filesystem) ds b p :
  mkdirs fs0 ds = (fs1, b) → fs1 !! p = fs0 !! p ∨ fs1 !! p = Some Dir.
Proof.
  revert fs0. induction ds as [|d ds IH]; intros fs0; simpl.
  - intros [= <- _]. by left.
  - destruct (fs0 !! d) as [[data r|]|] eqn:Hd.
    + intros [= <- _]. by left.
    + apply IH.
    + intros Hm. destruct (IH _ Hm) as [Heq|?]; [|by right].
      rewrite Heq. destruct (decide (d = p)) as [->|Hne].
      * right. by rewrite lookup_insert_eq.
      * left. by rewrite lookup_insert_ne.
Qed.

Lemma mkdir_p_file_inv (fs0 fs1 : filesystem) d b p data r :
  mkdir_p fs0 d = (fs1, b) → fs1 !! p = Some (File data r) →
  fs0 !! p = Some (File data r).
Proof.
  unfold mkdir_p. destruct (fs0 !! d) as [[data' r'|]|].
  - by intros [= <- _].
  - by intros [= <- _].
  - intros Hm Hp. destruct (mkdirs_adds_dirs _ _ _ _ p Hm) as [Heq|Hd]; congruence.
Qed.

Lemma do_transfer_values st total src dst p x :
  fs st !! dst = None →
  (p ≠ src ∨ (action cfg == py "move") = false) →
  fs st !! p = Some x →
  fs (do_transfer cfg st total src dst).1 !! p = Some x.
Proof.
  intros Hfree Hp Hx. unfold do_transfer.
  assert (Hne : p ≠ dst) by congruence.
  destruct (action cfg == py "move") eqn:Hact.
  - destruct Hp as [Hp|?]; [|done].
    destruct (move (fs st) src dst) as [[fs1 rd]|] eqn:Hm.
    + destruct (move_free _ _ _ _ _ Hfree Hm) as (-> & data & r & ->). simpl.
      by rewrite lookup_insert_ne, lookup_delete_ne by done.
    + by rewrite fs_do_fail.
  - destruct (copy2 (fs st) src dst) as [[fs1 rd]|] eqn:Hm.
    + destruct (copy2_free _ _ _ _ _ Hfree Hm) as (-> & data & ->). simpl.
      by rewrite lookup_insert_ne by done.
    + by rewrite fs_do_fail.
Qed.

Lemma process_values total st m p x :
  (p ≠ m_path m ∨ (action cfg == py "move") = false) →
  fs st !! p = Some x →
  fs (process sha1_hexdigest ask_conflict cfg total st m).1 !! p = Some x.
Proof.
  intros Hp Hx.
  destruct (process_shape total st m) as [[_ ->]|(_ & fs1 & ok & Hmk & Hs)]; [done|].
  assert (Hx1 : fs1 !! p = Some x).
  { rewrite (mkdir_p_mono _ _ _ _ p Hmk); [done|by rewrite Hx]. }
  destruct Hs as [[why ->]|[[e ->]|[->|(dst & Hfree & ->)]]].
  - by rewrite fs_do_skip.
  - by rewrite fs_do_fail.
  - done.
  - by apply do_transfer_values.
Qed.

Lemma do_transfer_content st total src dst d :
  fs st !! dst = None →
  (do_transfer cfg st total src dst).2 = placed d →
  d = dst
  ∧ ∃ data r, fs st !! src = Some (File data r)
      ∧ fs (do_transfer cfg st total src dst).1 !! d = Some (File data r)
      ∧ fs (do_transfer cfg st total src dst).1 !! src
        = if action cfg == py "move" then None else Some (File data r).
Proof.
  intros Hfree. unfold do_transfer.
  destruct (action cfg == py "move") eqn:Hact.
  - destruct (move (fs st) src dst) as [[fs1 rd]|] eqn:Hm; [|done].
    destruct (move_free _ _ _ _ _ Hfree Hm) as (-> & _ & _ & _).
    unfold move, is_dir in Hm. rewrite Hfree in Hm.
    destruct (fs st !! src) as [[data r|]|] eqn:Hsrc; try done.
    injection Hm as <-. simpl. intros [= <-]. split; [done|].
    exists data, r. split_and!; [done|by rewrite lookup_insert_eq|].
    assert (src ≠ dst) by congruence.
    by rewrite lookup_insert_ne, lookup_delete_eq by done.
  - destruct (copy2 (fs st) src dst) as [[fs1 rd]|] eqn:Hm; [|done].
    destruct (copy2_free _ _ _ _ _ Hfree Hm) as (-> & _ & _).
    unfold copy2, is_dir in Hm. rewrite Hfree in Hm.
    destruct (fs st !! src) as [[data [|]|]|] eqn:Hsrc; try done.
    destruct (dst == src); [done|]. rewrite Hfree in Hm.
    injection Hm as <-. simpl. intros [= <-]. split; [done|].
    exists data, true. split_and!; [done|by rewrite lookup_insert_eq|].
    assert (src ≠ dst) by congruence.
    by rewrite lookup_insert_ne by done.
Qed.

(** *** Counters and events *)

Lemma accounted_with_fs st fs1 st' o :
  accounted (with_fs st fs1) st' o → accounted st st' o.
Proof. done. Qed.

Lemma reported_with_fs total st fs1 st' o :
  reported total (with_fs st fs1) st' o → reported total st st' o.
Proof. done. Qed.

Lemma do_skip_accounted st total src why :
  accounted st (do_skip st total src why).1 (do_skip st total src why).2
  ∧ reported total st (do_skip st total src why).1 (do_skip st total src why).2.
Proof.
  unfold do_skip, report_if_due, accounted, reported. cbn [fst snd done].
  destruct (should_report (S (done st)) total) eqn:Hr; simpl.
  - rewrite Hr, length_app, orb_false_r. simpl.
    split; [repeat split; lia|]. by eexists.
  - rewrite Hr, length_app, orb_false_r, app_nil_r. simpl.
    split; [repeat split; lia|]. by exists [].
Qed.

Lemma do_fail_accounted st total src e :
  accounted st (do_fail st total src e).1 (do_fail st total src e).2
  ∧ reported total st (do_fail st total src e).1 (do_fail st total src e).2.
Proof.
  unfold do_fail, report_if_due, accounted, reported. cbn [fst snd done].
  destruct (should_report (S (done st)) total) eqn:Hr; simpl.
  - rewrite Hr, length_app, orb_false_r. simpl.
    split; [repeat split; lia|]. by eexists.
  - rewrite Hr, length_app, orb_false_r, app_nil_r. simpl.
    split; [repeat split; lia|]. by exists [].
Qed.

Lemma do_transfer_accounted st total src dst :
  accounted st (do_transfer cfg st total src dst).1 (do_transfer cfg st total src dst).2
  ∧ reported total st (do_transfer cfg st total src dst).1
      (do_transfer cfg st total src dst).2.
Proof.
  unfold do_transfer.
  destruct ((if action cfg == py "move" then move else copy2) (fs st) src dst)
    as [[fs1 rd]|]; [|apply do_fail_accounted].
  unfold accounted, reported. simpl. rewrite orb_false_r.
  split; [repeat split; lia|]. by eexists.
Qed.

Lemma process_accounted total st m :
  let r := process sha1_hexdigest ask_conflict cfg total st m in
  accounted st r.1 r.2 ∧ reported total st r.1 r.2
  ∧ (r.2 = not_run → stop_flag st = true) ∧ r.2 ≠ no_result.
Proof.
  cbv zeta. split_and!; [| | |apply process_result].
  - destruct (process_shape total st m) as [[_ ->]|(_ & fs1 & ok & Hmk & Hs)].
    { unfold accounted. simpl. rewrite orb_false_r. repeat split; lia. }
    destruct Hs as [[why ->]|[[e ->]|[->|(dst & Hfree & ->)]]].
    + apply (accounted_with_fs st fs1), do_skip_accounted.
    + apply (accounted_with_fs st fs1), do_fail_accounted.
    + unfold accounted. simpl. rewrite orb_true_r. repeat split; lia.
    + apply (accounted_with_fs st fs1), do_transfer_accounted.
  - destruct (process_shape total st m) as [[_ ->]|(_ & fs1 & ok & Hmk & Hs)].
    { exists []. simpl. by rewrite app_nil_r. }
    destruct Hs as [[why ->]|[[e ->]|[->|(dst & Hfree & ->)]]].
    + apply (reported_with_fs total st fs1), do_skip_accounted.
    + apply (reported_with_fs total st fs1), do_fail_accounted.
    + exists []. simpl. by rewrite app_nil_r.
    + apply (reported_with_fs total st fs1), do_transfer_accounted.
  - destruct (process_shape total st m) as [[? _]|(_ & fs1 & ok & Hmk & Hs)]; [done|].
    destruct Hs as [[why ->]|[[e ->]|[->|(dst & Hfree & ->)]]]; try done.
    unfold do_transfer.
    destruct ((if action cfg == py "move" then move else copy2) _ _ _) as [[??]|]; done.
Qed.
End ProcessFacts.

(** ** [process] and the sequential run: files *)

Section RunFacts.
Context `{CharTable}.
Variable sha1_hexdigest : list N → pystr.
Variable ask_conflict : pystr → pystr → answer.
Variable cfg : config.

Lemma run_sequential_stopped total st metas :
  stop_flag st = true →
  run_sequential sha1_hexdigest ask_conflict cfg total st metas = (st, []).
Proof. intros Hs. destruct metas; simpl; by rewrite ?Hs. Qed.

Lemma run_sequential_cons total st m rest :
  stop_flag st = false →
  run_sequential sha1_hexdigest ask_conflict cfg total st (m :: rest) =
    let r := process sha1_hexdigest ask_conflict cfg total st m in
    let r' := run_sequential sha1_hexdigest ask_conflict cfg total r.1 rest in
    (r'.1, (m, r.2) :: r'.2).
Proof.
  intros Hs. cbn [run_sequential]. rewrite Hs.
  destruct (process _ _ _ _ _ _) as [st1 o]. cbn [fst snd].
  by destruct (run_sequential _ _ _ _ _ _).
Qed.

Lemma run_sequential_values total metas :
  ∀ st p x,
    fs st !! p = Some x →
    (p ∉ m_path <$> metas ∨ (action cfg == py "move") = false) →
    fs (run_sequential sha1_hexdigest ask_conflict cfg total st metas).1 !! p = Some x.
Proof.
  induction metas as [|m rest IH]; intros st p x Hx Hp; [done|].
  destruct (stop_flag st) eqn:Hs; [by rewrite run_sequential_stopped|].
  rewrite run_sequential_cons by done. cbn [fst].
  apply IH.
  - apply process_values; [|done].
    destruct Hp as [Hp|?]; [left|by right]. intros ->. apply Hp. by left.
  - destruct Hp as [Hp|?]; [left|by right]. intros Hin. apply Hp. by right.
Qed.

Lemma accounted_consistent st st' o :
  accounted st st' o → counters_consistent st → counters_consistent st'.
Proof.
  unfold accounted, counters_consistent.
  intros (?&?&?&?&?&?&?) (?&?&?). destruct o; simpl in *; repeat split; lia.
Qed.

Lemma run_sequential_accounted total metas :
  ∀ st,
    let r := run_sequential sha1_hexdigest ask_conflict cfg total st metas in
    (counters_consistent st → counters_consistent r.1)
    ∧ (done st ≤ done r.1 ≤ done st + length metas)%nat
    ∧ (stop_flag r.1 = false → done r.1 = (done st + length metas)%nat)
    ∧ (stop_flag st = true → stop_flag r.1 = true).
Proof.
  induction metas as [|m rest IH]; intros st; cbv zeta.
  { simpl. split_and!; try done; intros; lia. }
  destruct (stop_flag st) eqn:Hs.
  { rewrite run_sequential_stopped by done. simpl.
    split_and!; try done; try lia; congruence. }
  rewrite run_sequential_cons by done. cbn [fst].
  destruct (process_accounted sha1_hexdigest ask_conflict cfg total st m)
    as (Hacc & _ & Hnot & Hres).
  set (r := process sha1_hexdigest ask_conflict cfg total st m) in *.
  destruct (IH r.1) as (Hc & [Hb1 Hb2] & Hall & Hmono).
  pose proof Hacc as (Hd & _ & _ & _ & _ & _ & Hstop).
  split; [|split; [|split]].
  - intros Hcons. by eapply Hc, accounted_consistent.
  - simpl. destruct (completed r.2); lia.
  - intros Hend. rewrite (Hall Hend), Hd.
    destruct (stop_flag r.1) eqn:Hs1; [by rewrite Hmono in Hend|].
    rewrite Hs in Hstop. simpl in Hstop.
    destruct r.2 eqn:Ho; simpl in *; try lia; try done.
    rewrite Hnot in Hs; done.
  - done.
Qed.

Lemma StronglySorted_snoc (l : list nat) x :
  StronglySorted lt l → Forall (λ y, y < x)%nat l → StronglySorted lt (l ++ [x]).
Proof.
  induction 1 as [|y l Hl IH Hy]; intros Hall; simpl.
  - repeat constructor.
  - inversion Hall as [|? ? Hyx Hlx]; subst. constructor; [by apply IH|].
    apply Forall_app. split; [done|]. by constructor.
Qed.

Lemma process_events_ok total lo st m :
  events_ok total lo st →
  events_ok total lo (process sha1_hexdigest ask_conflict cfg total st m).1.
Proof.
  intros (Hsorted & Hrange & Hcover).
  destruct (process_accounted sha1_hexdigest ask_conflict cfg total st m)
    as (Hacc & [name Hrep] & _ & _).
  set (r := process sha1_hexdigest ask_conflict cfg total st m) in *.
  destruct Hacc as (Hd & _).
  assert (Hold : Forall (λ e, (1 ≤ ev_done e ≤ done r.1)%nat ∧ ev_total e = total)
                   (ui_queue st)).
  { eapply Forall_impl; [exact Hrange|]. intros e [? ?]. split; [lia|done]. }
  destruct (is_placed r.2 || completed r.2 && should_report (done r.1) total) eqn:Hb.
  - assert (Hcomp : completed r.2 = true).
    { destruct r.2; simpl in *; done. }
    rewrite Hcomp in Hd. unfold events_ok. rewrite Hrep. split_and!.
    + rewrite fmap_app. apply StronglySorted_snoc; [done|].
      apply Forall_fmap. eapply Forall_impl; [exact Hrange|].
      intros e [? ?]. simpl. lia.
    + apply Forall_app. split; [done|]. constructor; [|done]. simpl. split; [lia|done].
    + intros k Hk Hdue. rewrite fmap_app, elem_of_app.
      destruct (decide (k = done r.1)) as [->|Hne].
      * right. simpl. by left.
      * left. apply Hcover; [lia|done].
  - unfold events_ok. rewrite Hrep, app_nil_r. split_and!; [done|done|].
    intros k Hk Hdue. apply Hcover; [|done].
    destruct (completed r.2) eqn:Hcomp; [|lia].
    destruct (decide (k = done r.1)) as [->|Hne]; [|lia].
    rewrite Hdue in Hb. simpl in Hb. by rewrite orb_true_r in Hb.
Qed.

Lemma run_sequential_events_ok total lo metas :
  ∀ st, events_ok total lo st →
        events_ok total lo
          (run_sequential sha1_hexdigest ask_conflict cfg total st metas).1.
Proof.
  induction metas as [|m rest IH]; intros st Hok; [done|].
  destruct (stop_flag st) eqn:Hs; [by rewrite run_sequential_stopped|].
  rewrite run_sequential_cons by done. cbn [fst].
  by apply IH, process_events_ok.
Qed.
End RunFacts.

(** X16: a sequential run in copy mode changes or removes nothing that
    existed before it; in move mode the same holds for every path that is
    not one of the sources. *)
Theorem sequential_run_keeps_existing_files `{CharTable}
    (sha1_hexdigest : list N → pystr) (ask_conflict : pystr → pystr → answer)
    (cfg : config) (total : nat) (st : run_state) (metas : list meta)
    (p : pystr) (x : node) :
  fs st !! p = Some x →
  (p ∉ m_path <$> metas ∨ action cfg ≠ py "move") →
  fs (run_sequential sha1_hexdigest ask_conflict cfg total st metas).1 !! p = Some x.
Proof.
  intros Hx Hp. apply run_sequential_values; [done|].
  destruct Hp as [?|Hp]; [by left|right].
  unfold pystr_eqb. by apply bool_decide_eq_false.
Qed.

Lemma sequential_run_keeps_existing_files_witness :
  fs (@run_sequential ascii_table toy_digest always_rename
        (sample_cfg "rename" false 1) 2 (initial_state fs_race)
        (sample_meta <$> [py "/sd/a/IMG.jpg"; py "/sd/b/IMG.jpg"])).1
    !! (sample_dir </> py "IMG.jpg") = Some (File [0] true).
Proof.
  apply (@sequential_run_keeps_existing_files ascii_table).
  - reflexivity.
  - right. discriminate.
Defined.

(** X17: when [process] reports a destination for a source that is a
    regular file, nothing existed at the destination before and it now
    holds the source's bytes; the source is still in place after a copy
    and gone after a move. *)
Theorem placed_file_holds_source_bytes `{CharTable}
    (sha1_hexdigest : list N → pystr) (ask_conflict : pystr → pystr → answer)
    (cfg : config) (total : nat) (st : run_state) (m : meta) (d : pystr)
    (data : list N) (rd : bool) :
  let r := process sha1_hexdigest ask_conflict cfg total st m in
  fs st !! m_path m = Some (File data rd) →
  r.2 = placed d →
  fs st !! d = None
  ∧ fs r.1 !! d = Some (File data rd)
  ∧ fs r.1 !! m_path m
    = if action cfg == py "move" then None else Some (File data rd).
Proof.
  intros r Hfile Ho. subst r.
  destruct (process_shape sha1_hexdigest ask_conflict cfg total st m)
    as [[_ Hr]|(_ & fs1 & ok & Hmk & Hs)]; [by rewrite Hr in Ho|].
  destruct Hs as [[why Hr]|[[e Hr]|[Hr|(dst & Hfree & Hr)]]];
    rewrite Hr in Ho |- *; try done.
  destruct (do_transfer_content cfg (with_fs st fs1) total (m_path m) dst d Hfree Ho)
    as (-> & data' & rd' & Hsrc & Hd & Hs).
  assert (Hsame : File data' rd' = File data rd).
  { pose proof (mkdir_p_file_inv _ _ _ _ _ _ _ Hmk Hsrc) as Hsrc0. congruence. }
  rewrite Hsame in Hd, Hs.
  split; [by eapply mkdir_p_free|]. done.
Qed.

Lemma placed_file_holds_source_bytes_witness :
  fs (@process ascii_table toy_digest always_rename (sample_cfg "rename" false 1)
        200 after_ten (sample_meta (py "/sd/IMG_11.jpg"))).1
    !! (sample_dir </> py "IMG_11.jpg") = Some (File [1; 2; 3] true).
Proof.
  destruct (@placed_file_holds_source_bytes ascii_table toy_digest always_rename
              (sample_cfg "rename" false 1) 200 after_ten
              (sample_meta (py "/sd/IMG_11.jpg")) (sample_dir </> py "IMG_11.jpg")
              [1; 2; 3] true eq_refl eq_refl) as (_ & Hd & _).
  exact Hd.
Defined.

(** ** The sequential run: counters and events *)

(** X18: at the end of a sequential run that starts from zeroed counters,
    [done = success + skipped + failed], the list of skipped files has
    [skipped] entries and the list of errors has [failed] entries; [done]
    never exceeds the number of files, and equals it unless the run was
    stopped. *)
Theorem sequential_run_counters `{CharTable}
    (sha1_hexdigest : list N → pystr) (ask_conflict : pystr → pystr → answer)
    (cfg : config) (total : nat) (fs0 : filesystem) (metas : list meta) :
  let st := (run_sequential sha1_hexdigest ask_conflict cfg total
               (initial_state fs0) metas).1 in
  done st = (success st + skipped st + failed st)%nat
  ∧ length (skipped_list st) = skipped st
  ∧ length (errors st) = failed st
  ∧ (done st ≤ length metas)%nat
  ∧ (stop_flag st = false → done st = length metas).
Proof.
  intros st. subst st.
  destruct (run_sequential_accounted sha1_hexdigest ask_conflict cfg total metas
              (initial_state fs0)) as (Hc & Hb & Hall & _).
  destruct Hc as (? & ? & ?); [done|]. simpl in Hb, Hall.
  split_and!; [done|done|done|lia|done].
Qed.

(** X19: the status events queued by a sequential run carry strictly
    increasing counts between 1 and [done], all with the run's total; and
    every completion for which a report is due has its event, in
    particular each of the first ten and the one that reaches the total. *)
Theorem sequential_run_events `{CharTable}
    (sha1_hexdigest : list N → pystr) (ask_conflict : pystr → pystr → answer)
    (cfg : config) (total : nat) (fs0 : filesystem) (metas : list meta) :
  let st := (run_sequential sha1_hexdigest ask_conflict cfg total
               (initial_state fs0) metas).1 in
  StronglySorted lt (ev_done <$> ui_queue st)
  ∧ Forall (λ e, (1 ≤ ev_done e ≤ done st)%nat ∧ ev_total e = total) (ui_queue st)
  ∧ (∀ k, (1 ≤ k ≤ done st)%nat → should_report k total = true →
          k ∈ ev_done <$> ui_queue st)
  ∧ (∀ k, (1 ≤ k ≤ done st)%nat → (k ≤ 10)%nat ∨ k = total →
          k ∈ ev_done <$> ui_queue st).
Proof.
  intros st. subst st.
  destruct (run_sequential_events_ok sha1_hexdigest ask_conflict cfg total 0 metas
              (initial_state fs0)) as (Hs & Hr & Hc).
  { split_and!; [constructor|constructor|]. simpl. intros k Hk. lia. }
  split_and!; [done|done| |].
  - intros k Hk. apply Hc. lia.
  - intros k Hk Hcase. apply Hc; [lia|]. unfold should_report.
    destruct Hcase as [Hk10| ->].
    + apply Nat.leb_le in Hk10. by rewrite Hk10.
    + by rewrite Nat.eqb_refl, orb_true_r.
Qed.

(** X20: the rate limit of the status events.  A report is due for each
    of the first ten completions and for the one that reaches the total;
    with fewer than 200 files it is due for every completion; from 200
    files on it is otherwise due exactly at the multiples of
    [total // 100]. *)
Theorem should_report_cases (k total : nat) :
  ((k ≤ 10)%nat → should_report k total = true)
  ∧ should_report total total = true
  ∧ ((total < 200)%nat → should_report k total = true)
  ∧ ((200 ≤ total)%nat → (10 < k)%nat → k ≠ total →
     (should_report k total = true ↔ (k mod (total / 100) = 0)%nat)).
Proof.
  unfold should_report. split_and!.
  - intros Hk. apply Nat.leb_le in Hk. by rewrite Hk.
  - by rewrite Nat.eqb_refl, orb_true_r.
  - intros Ht. assert (Hq : (total / 100 ≤ 1)%nat).
    { apply Nat.lt_succ_r, Nat.Div0.div_lt_upper_bound. lia. }
    replace (Nat.max 1 (total / 100)) with 1%nat by lia.
    rewrite Nat.mod_1_r. simpl. by rewrite orb_true_r.
  - intros Ht Hk Hne.
    assert (Hq : (2 ≤ total / 100)%nat).
    { apply Nat.div_le_lower_bound; lia. }
    replace (Nat.max 1 (total / 100)) with (total / 100)%nat by lia.
    apply Nat.leb_gt in Hk. rewrite Hk.
    apply Nat.eqb_neq in Hne. rewrite Hne. rewrite orb_false_r. simpl.
    apply Nat.eqb_eq.
Qed.

(** ** [process]: the policies *)

(** X21: when the operator answers "cancel" the stop flag is set, the
    file is counted neither as done nor as skipped or failed, and the
    sequential run ends there: no later file is looked at. *)
Theorem cancel_ends_the_run `{CharTable}
    (sha1_hexdigest : list N → pystr) (ask_conflict : pystr → pystr → answer)
    (cfg : config) (total : nat) (st : run_state) (m : meta) (rest : list meta) :
  let r := process sha1_hexdigest ask_conflict cfg total st m in
  r.2 = cancel_all →
  stop_flag r.1 = true
  ∧ done r.1 = done st ∧ success r.1 = success st
  ∧ skipped r.1 = skipped st ∧ failed r.1 = failed st
  ∧ run_sequential sha1_hexdigest ask_conflict cfg total st (m :: rest)
    = (r.1, [(m, cancel_all)]).
Proof.
  intros r Ho.
  destruct (process_accounted sha1_hexdigest ask_conflict cfg total st m)
    as (Hacc & _ & _ & _).
  fold r in Hacc. rewrite Ho in Hacc.
  destruct Hacc as (Hd & Hs & Hk & Hf & _ & _ & Hstop).
  simpl in Hd, Hs, Hk, Hf, Hstop. rewrite orb_true_r in Hstop.
  assert (Hst : stop_flag st = false).
  { destruct (stop_flag st) eqn:Hst; [|done].
    subst r. unfold process in Ho. by rewrite Hst in Ho. }
  split_and!; [done|lia|lia|lia|lia|].
  rewrite run_sequential_cons by done. fold r. cbv zeta.
  rewrite run_sequential_stopped by done. by rewrite Ho.
Qed.

Lemma cancel_ends_the_run_witness :
  @run_sequential ascii_table toy_digest always_cancel (sample_cfg "ask" false 1) 2
    (initial_state fs_other_content)
    [sample_meta (py "/sd/IMG_1.jpg"); sample_meta (py "/sd/IMG_2.jpg")]
  = ((@process ascii_table toy_digest always_cancel (sample_cfg "ask" false 1) 2
        (initial_state fs_other_content) (sample_meta (py "/sd/IMG_1.jpg"))).1,
     [(sample_meta (py "/sd/IMG_1.jpg"), cancel_all)]).
Proof.
  pose proof (@cancel_ends_the_run ascii_table toy_digest always_cancel
           (sample_cfg "ask" false 1) 2 (initial_state fs_other_content)
           (sample_meta (py "/sd/IMG_1.jpg")) [sample_meta (py "/sd/IMG_2.jpg")])
    as Hw.
  cbv zeta in Hw. assert (Hc : (@process ascii_table toy_digest always_cancel
        (sample_cfg "ask" false 1) 2 (initial_state fs_other_content)
        (sample_meta (py "/sd/IMG_1.jpg"))).2 = cancel_all)
    by (vm_compute; reflexivity).
  destruct (Hw Hc) as (_ & _ & _ & _ & _ & Hrun). exact Hrun.
Defined.

(** X22: under the policy "skip", a file whose destination exists (and is
    not skipped by the hash check) is skipped as a duplicate name: it is
    added to the skipped files and nothing is written. *)
Theorem policy_skip_writes_nothing `{CharTable}
    (sha1_hexdigest : list N → pystr) (ask_conflict : pystr → pystr → answer)
    (cfg : config) (total : nat) (st : run_state) (m : meta) :
  let src := m_path m in
  let dst := _target_dir_for cfg m </> path_name src in
  stop_flag st = false →
  policy cfg = py "skip" →
  is_dir (fs st) (_target_dir_for cfg m) = true →
  path_exists (fs st) dst = true →
  (skip_hash_dup cfg = false
   ∨ file_hash sha1_hexdigest (fs st) src ≠ file_hash sha1_hexdigest (fs st) dst) →
  let r := process sha1_hexdigest ask_conflict cfg total st m in
  r = do_skip st total src skip_duplicate_name
  ∧ r.2 = skip skip_duplicate_name
  ∧ fs r.1 = fs st
  ∧ skipped_list r.1 = skipped_list st ++ [src]
  ∧ skipped r.1 = S (skipped st) ∧ success r.1 = success st.
Proof.
  intros src dst Hstop Hpol Hdir Hex Hhash r. subst src dst r.
  assert (Hr : process sha1_hexdigest ask_conflict cfg total st m
               = do_skip st total (m_path m) skip_duplicate_name).
  { unfold process.
    rewrite Hstop, (mkdir_p_existing _ _ Hdir), with_fs_id, Hex, Hpol.
    assert (Hno : skip_hash_dup cfg
                  && (file_hash sha1_hexdigest (fs st) (m_path m)
                      == file_hash sha1_hexdigest (fs st)
                           (_target_dir_for cfg m </> path_name (m_path m))) = false).
    { destruct Hhash as [->|Hne]; [done|].
      unfold pystr_eqb. rewrite bool_decide_eq_false_2 by done. apply andb_false_r. }
    rewrite Hno. reflexivity. }
  rewrite Hr.
  pose proof (counters_do_skip st total (m_path m) skip_duplicate_name) as Hc.
  cbv zeta in Hc. destruct Hc as (? & ? & ? & ? & ? & ?).
  rewrite fs_do_skip. split_and!; done.
Qed.

Lemma policy_skip_writes_nothing_witness :
  let r := @process ascii_table toy_digest always_rename (sample_cfg "skip" true 1)
             1 (initial_state fs_other_content) (sample_meta (py "/sd/IMG_1.jpg")) in
  r.2 = skip skip_duplicate_name ∧ fs r.1 = fs_other_content.
Proof.
  pose proof (@policy_skip_writes_nothing ascii_table toy_digest always_rename
    (sample_cfg "skip" true 1) 1 (initial_state fs_other_content)
    (sample_meta (py "/sd/IMG_1.jpg"))) as Hw.
  cbv zeta in Hw.
  destruct Hw as (_ & Ho & Hfs & _).
  - reflexivity.
  - reflexivity.
  - vm_compute. reflexivity.
  - vm_compute. reflexivity.
  - right. vm_compute. discriminate.
  - split; [exact Ho|exact Hfs].
Defined.

(** X23: in a sequential run over distinct source files that exist, no
    two files are assigned the same destination, whatever the policy, the
    action and the operator's answers. *)
Theorem sequential_run_distinct_destinations `{CharTable}
    (sha1_hexdigest : list N → pystr) (ask_conflict : pystr → pystr → answer)
    (cfg : config) (total : nat) (st : run_state) (metas : list meta) :
  NoDup (m_path <$> metas) →
  (∀ m, m ∈ metas → is_Some (fs st !! m_path m)) →
  NoDup (placed_dests
           (run_sequential sha1_hexdigest ask_conflict cfg total st metas).2).
Proof. apply run_sequential_distinct. Qed.

Lemma sequential_run_distinct_destinations_witness :
  NoDup (placed_dests
           (@run_sequential ascii_table toy_digest always_rename
              (sample_cfg "rename" false 1) 3 (initial_state fs_three)
              (sample_meta <$> three_sources)).2).
Proof.
  apply (@sequential_run_distinct_destinations ascii_table).
  - refine (bool_decide_unpack _ _). vm_compute. exact I.
  - intros m Hm. unfold three_sources in Hm. simpl in Hm.
    repeat (apply elem_of_cons in Hm as [->|Hm]; [vm_compute; eauto|]).
    by apply elem_of_nil in Hm.
Defined.

(** ** Names and extensions *)

Lemma rsplit_at_None c s : rsplit_at c s = None → in_str c s = false.
Proof.
  induction s as [|x s IH]; [done|]. simpl.
  destruct (rsplit_at c s) as [[b a]|]; [done|].
  destruct (x =? c) eqn:Hx; [done|]. intros _.
  rewrite N.eqb_sym, Hx. by apply IH.
Qed.

Lemma rsplit_at_Some c s b a :
  rsplit_at c s = Some (b, a) → s = b ++ c :: a ∧ in_str c a = false.
Proof.
  revert b. induction s as [|x s IH]; intros b; [done|]. simpl.
  destruct (rsplit_at c s) as [[b' a']|] eqn:Hr.
  - intros [= <- <-]. destruct (IH b' eq_refl) as [-> ?]. done.
  - destruct (x =? c) eqn:Hx; [|done]. intros [= <- <-].
    apply N.eqb_eq in Hx as ->. split; [done|]. by apply rsplit_at_None.
Qed.

Lemma splitext_concat p : (splitext p).1 ++ (splitext p).2 = p.
Proof.
  unfold splitext. destruct (rsplit_at DOT p) as [[b a]|] eqn:Hr.
  - apply rsplit_at_Some in Hr as [-> _].
    destruct (in_str SLASH a); [apply app_nil_r|].
    destruct (forallb _ _); [apply app_nil_r|done].
  - apply app_nil_r.
Qed.

Lemma splitext_ext p :
  (splitext p).2 = []
  ∨ ∃ a, (splitext p).2 = DOT :: a ∧ in_str DOT a = false ∧ in_str SLASH a = false.
Proof.
  unfold splitext. destruct (rsplit_at DOT p) as [[b a]|] eqn:Hr; [|by left].
  apply rsplit_at_Some in Hr as [_ Hdot].
  destruct (in_str SLASH a) eqn:Hs; [by left|].
  destruct (forallb _ _); [by left|]. right. by exists a.
Qed.

(** X24: a name chosen by [unique_dest] lies in the destination
    directory and keeps the stem and the extension of the original name,
    with at most a counter ["_k"] between them; stem and extension make up
    the name, and the extension is empty or a dot followed by characters
    other than dot and slash. *)
Theorem unique_dest_keeps_extension (fs0 : filesystem) (dest_dir name : pystr) :
  let base := (splitext name).1 in
  let ext := (splitext name).2 in
  base ++ ext = name
  ∧ (ext = [] ∨ ∃ a, ext = DOT :: a ∧ in_str DOT a = false ∧ in_str SLASH a = false)
  ∧ ∃ r mid, unique_dest fs0 dest_dir name = Some r
             ∧ r = dest_dir </> (base ++ mid ++ ext)
             ∧ (mid = [] ∨ ∃ k, (1 ≤ k)%nat ∧ mid = py "_" ++ str_nat k).
Proof.
  cbv zeta. split_and!; [apply splitext_concat|apply splitext_ext|].
  destruct (unique_dest_first_free_aux fs0 dest_dir name)
    as (r & Hr & [->|(k & Hk & ->)]).
  - exists (dest_dir </> name), []. split_and!; [done| |by left].
    by rewrite app_nil_l, splitext_concat.
  - eexists _, (py "_" ++ str_nat k). split_and!; [done| |right; eauto].
    unfold candidate. by rewrite <- (assoc_L (++)).
Qed.

(** ** The record returned by [extract_meta] *)

Lemma sanitize_value_sanitized `{CharTable} (v : json) (s : pystr) :
  sanitize_value v = Some s → ∃ name, s = sanitize name.
Proof.
  destruct v as [a|[|] t]; intros [= <-]; [by exists a|by exists []].
Qed.

(** X25: a record returned by [extract_meta] carries the path it was
    asked about; its camera and lens are non-empty and consist of
    characters [sanitize] accepts; its year, month and date are formatted
    from its timestamp; a field for which no strategy has a value holds
    its default: "Unknown Camera", "Unknown Lens", and the file's
    modification time, or the current time when that cannot be read. *)
Theorem extract_meta_record_shape `{CharTable} (E : MetaSource)
    (path : pystr) (r : meta) :
  extract_meta E path = Some r →
  m_path r = path
  ∧ m_camera r ≠ [] ∧ m_lens r ≠ []
  ∧ (∀ c, c ∈ m_camera r ++ m_lens r → safe_char c = true)
  ∧ (m_year r = fmt_Y (m_dt r) ∧ m_month r = fmt_Ym (m_dt r)
     ∧ m_date r = fmt_Ymd (m_dt r))
  ∧ (truthy (exif_from_pillow E path).1.2 = false →
     truthy (exif_from_exifread E path).1.2 = false →
     json_true (exif_from_exiftool E path).1.2 = false →
     m_camera r = py "Unknown Camera")
  ∧ (truthy (exif_from_pillow E path).2 = false →
     truthy (exif_from_exifread E path).2 = false →
     json_true (exif_from_exiftool E path).2 = false →
     m_lens r = py "Unknown Lens")
  ∧ ((exif_from_pillow E path).1.1 = None →
     (exif_from_exifread E path).1.1 = None →
     (exif_from_exiftool E path).1.1 = None →
     m_dt r = match stat_mtime E path with
              | Some mtime => mtime
              | None => now E
              end).
Proof.
  destruct (exif_from_pillow E path) as [[d1 c1] l1] eqn:H1.
  destruct (exif_from_exifread E path) as [[d2 c2] l2] eqn:H2.
  destruct (exif_from_exiftool E path) as [[d3 c3] l3] eqn:H3.
  rewrite (extract_meta_closed_form E path _ _ _ _ _ _ _ _ _ H1 H2 H3).
  destruct (sanitize_value (default _ (first_truthy [J_str <$> c1; _; _])))
    as [sc|] eqn:Hsc; [|done].
  destruct (sanitize_value (default _ (first_truthy [J_str <$> l1; _; _])))
    as [sl|] eqn:Hsl; [|done].
  intros [= <-]. cbn [m_path m_dt m_year m_month m_date m_camera m_lens fst snd].
  destruct (sanitize_value_sanitized _ _ Hsc) as [nc Hnc].
  destruct (sanitize_value_sanitized _ _ Hsl) as [nl Hnl].
  split_and!; try done.
  - rewrite Hnc. apply sanitize_nonempty.
  - rewrite Hnl. apply sanitize_nonempty.
  - rewrite Hnc, Hnl. intros c [Hc|Hc]%elem_of_app; by eapply sanitize_safe.
  - intros Hc1 Hc2 Hc3.
    assert (Hw : first_truthy [J_str <$> c1; J_str <$> c2; c3] = None).
    { destruct c1 as [[|??]|]; try discriminate;
        destruct c2 as [[|??]|]; try discriminate;
        destruct c3 as [[[|??]|[|] ?]|]; try discriminate; reflexivity. }
    rewrite Hw in Hsc. cbn [default from_option sanitize_value] in Hsc.
    rewrite sanitize_unknown_camera in Hsc. congruence.
  - intros Hl1 Hl2 Hl3.
    assert (Hw : first_truthy [J_str <$> l1; J_str <$> l2; l3] = None).
    { destruct l1 as [[|??]|]; try discriminate;
        destruct l2 as [[|??]|]; try discriminate;
        destruct l3 as [[[|??]|[|] ?]|]; try discriminate; reflexivity. }
    rewrite Hw in Hsl. cbn [default from_option sanitize_value] in Hsl.
    rewrite sanitize_unknown_lens in Hsl. congruence.
  - intros -> -> ->. by destruct (stat_mtime E path).
Qed.

Lemma extract_meta_record_shape_witness :
  ∃ r, @extract_meta ascii_table nothing_readable (py "x/IMG_1.CR2") = Some r
       ∧ m_camera r = py "Unknown Camera" ∧ m_lens r = py "Unknown Lens"
       ∧ m_dt r = now nothing_readable.
Proof.
  eexists. split; [vm_compute; reflexivity|].
  destruct (@extract_meta_record_shape ascii_table nothing_readable
              (py "x/IMG_1.CR2") _ ltac:(vm_compute; reflexivity))
    as (_ & _ & _ & _ & _ & Hc & Hl & Hd).
  split_and!; [exact (Hc eq_refl eq_refl eq_refl)|exact (Hl eq_refl eq_refl eq_refl)|
               exact (Hd eq_refl eq_refl eq_refl)].
Defined.
